(** * Scrum Sprint Runner: the task/sprint state model and its derived views

    A shallow embedding of the state handled by [App] in [src/App.tsx]
    (task collection, sprint, the mutation handlers, the column grouping and
    the burndown series) and of [analyzeTaskAttachments] of the Gemini
    service, with the properties the specification states about them. *)

From Stdlib Require Import ZArith QArith Qabs Qround Qminmax Qpower Lia Lqa String Ascii.
From stdpp Require Import gmap list strings pretty.

Local Open Scope Z_scope.

(** ** Data model ([types.ts]) *)

(** [ColumnId = 'backlog' | 'todo' | 'in-progress' | 'blocked' | 'done'] *)
Inductive ColumnId : Set :=
  | backlog | todo | in_progress | blocked | done.

#[global] Instance ColumnId_eq_dec : EqDecision ColumnId.
Proof. solve_decision. Defined.

Definition ColumnId_to_nat (c : ColumnId) : nat :=
  match c with
  | backlog => 0 | todo => 1 | in_progress => 2 | blocked => 3 | done => 4
  end%nat.

Definition ColumnId_of_nat (n : nat) : option ColumnId :=
  match n with
  | 0 => Some backlog | 1 => Some todo | 2 => Some in_progress
  | 3 => Some blocked | 4 => Some done | _ => None
  end%nat.

#[global] Instance ColumnId_countable : Countable ColumnId.
Proof.
  apply (inj_countable ColumnId_to_nat ColumnId_of_nat).
  intros []; reflexivity.
Defined.

(** A JavaScript string is kept as a [string] whose characters stand for its
    code units (the code units below 256 only). *)

Module Attachment.
Record t : Set := mk {
  name : string;
  type : string;
  data : string   (* base64 encoded file content, as a data URI *)
}.
End Attachment.

(** [points] and [attachments] may be left out of a task object: the initial
    task ['task-2'] has no [points], the edit form stores [undefined] for an
    empty points field.  Points are entered through [parseInt]: integers. *)
Module Task.
Record t : Set := mk {
  id : string;
  column : ColumnId;
  title : string;
  description : string;
  points : option Z;
  attachments : option (list Attachment.t)
}.

(** [task.column = c] on a draft. *)
Definition set_column (c : ColumnId) (task : t) : t :=
  mk (id task) c (title task) (description task) (points task)
     (attachments task).
End Task.

(** A [Date] is its time value, the milliseconds since the epoch that
    [getTime()] returns (an invalid date is outside the model). *)
Definition Date : Set := Z.

Module Sprint.
Record t : Set := mk {
  id : string;
  name : string;
  startDate : Date;
  endDate : Date;
  goal : string
}.
End Sprint.

#[global] Instance Attachment_eq_dec : EqDecision Attachment.t.
Proof. solve_decision. Defined.

#[global] Instance Task_eq_dec : EqDecision Task.t.
Proof. solve_decision. Defined.

(** ** Board projection ([tasksByColumn], App.tsx 564-572) *)

(** One step of the [reduce]: create the column's array when the accumulator
    has none, then push the task onto it. *)
Definition tasksByColumn_step (acc : gmap ColumnId (list Task.t))
    (task : Task.t) : gmap ColumnId (list Task.t) :=
  let acc1 :=
    match acc !! Task.column task with
    | None => <[Task.column task := []]> acc
    | Some _ => acc
    end in
  match acc1 !! Task.column task with
  | Some l => <[Task.column task := l ++ [task]]> acc1
  | None => acc1
  end.

Definition tasksByColumn (tasks : list Task.t) : gmap ColumnId (list Task.t) :=
  foldl tasksByColumn_step ∅ tasks.

(** What a [Column] receives: [tasksByColumn[column.id] || []] (App.tsx 679).
    An array is truthy, so only a missing entry takes the fallback. *)
Definition columnTasks (tasks : list Task.t) (c : ColumnId) : list Task.t :=
  match tasksByColumn tasks !! c with
  | Some l => l
  | None => []
  end.

(** The tasks of [tasks] in column [c], in their order in [tasks]. *)
Definition inColumn (c : ColumnId) (tasks : list Task.t) : list Task.t :=
  filter (λ t, Task.column t = c) tasks.

(** ** Numbers

    A JavaScript number is an IEEE 754 binary64 value.  The finite ones are
    rationals; an arithmetic operation returns the exact result rounded to
    the nearest binary64 value, ties to the even significand.  [NaN], the
    infinities and the sign of zero are outside the model: the operations
    below are used on finite values far from the overflow threshold. *)

Module Number.

(** [2^e] for any integer [e]. *)
Definition pow2 (e : Z) : Q := (2 ^ e)%Q.

(** For [x > 0], the exponent [e] with [2^e <= x < 2^(e+1)]. *)
Definition ilog2 (x : Q) : Z :=
  let e := Z.log2 (Qnum x) - Z.log2 (Zpos (Qden x)) in
  if Qle_bool (pow2 e) x then e else e - 1.

(** Nearest integer, a tie goes to the even one. *)
Definition rne (x : Q) : Z :=
  let f := Qfloor x in
  match (x - inject_Z f ?= 1 # 2)%Q with
  | Lt => f
  | Gt => f + 1
  | Eq => if Z.even f then f else f + 1
  end.

(** The integer [n] is the nearest one to [x], the even one at a tie. *)
Definition is_rne (x : Q) (n : Z) : Prop :=
  (inject_Z n - (1 # 2) < x /\ x < inject_Z n + (1 # 2))%Q
  \/ ((x == inject_Z n - (1 # 2) \/ x == inject_Z n + (1 # 2))%Q
      /\ Z.even n = true).

(** Exponent of the last place of the binary64 values around [x]: 53 bits of
    significand, the subnormal spacing [2^-1074] at the bottom. *)
Definition ulp_exp (x : Q) : Z := Z.max (ilog2 (Qabs x) - 52) (-1074).

(** Rounding to the nearest binary64 value. *)
Definition rnd (x : Q) : Q :=
  if Qeq_bool x 0 then 0%Q
  else (inject_Z (rne (x / pow2 (ulp_exp x))) * pow2 (ulp_exp x))%Q.

Definition add (x y : Q) : Q := rnd (x + y).
Definition sub (x y : Q) : Q := rnd (x - y).
Definition mul (x y : Q) : Q := rnd (x * y).
Definition div (x y : Q) : Q := rnd (x / y).

(** [x < y] *)
Definition ltb (x y : Q) : bool :=
  match (x ?= y)%Q with
  | Lt => true
  | _ => false
  end.

End Number.

(** [Math.abs], [Math.ceil], [Math.round] and [Math.max] are exact.
    [Math.round] takes a tie towards plus infinity. *)
Definition Math_abs (x : Q) : Q := Qabs x.
Definition Math_ceil (x : Q) : Z := Qceiling x.
Definition Math_round (x : Q) : Z := Qfloor (x + (1 # 2)).
Definition Math_max (x y : Q) : Q := Qmax x y.

(** ** Application state ([App], App.tsx 455-465)

    The pieces of React state that the handlers below read or write.  The
    other ones ([isLoading], [aiFeature], [theme], ...) are touched by none
    of them. *)
Record AppState : Set := mkAppState {
  tasks : list Task.t;
  sprint : Sprint.t;
  showNewTaskModal : bool;
  editingTask : option Task.t;
  showSprintModal : bool
}.

(** The state setters; [setTasks] takes an updater function. *)
Definition setTasks (f : list Task.t -> list Task.t) (st : AppState) : AppState :=
  mkAppState (f (tasks st)) (sprint st) (showNewTaskModal st)
             (editingTask st) (showSprintModal st).

Definition setSprint (s : Sprint.t) (st : AppState) : AppState :=
  mkAppState (tasks st) s (showNewTaskModal st) (editingTask st)
             (showSprintModal st).

Definition setShowNewTaskModal (b : bool) (st : AppState) : AppState :=
  mkAppState (tasks st) (sprint st) b (editingTask st) (showSprintModal st).

Definition setEditingTask (t : option Task.t) (st : AppState) : AppState :=
  mkAppState (tasks st) (sprint st) (showNewTaskModal st) t
             (showSprintModal st).

Definition setShowSprintModal (b : bool) (st : AppState) : AppState :=
  mkAppState (tasks st) (sprint st) (showNewTaskModal st) (editingTask st) b.

(** immer's curried [produce(recipe)]: the function from a base state to the
    state the recipe leaves in the draft. *)
Definition produce {A : Type} (recipe : A -> A) : A -> A := recipe.

(** [draft.find(t => t.id === taskId)] and [draft.findIndex(...)]: the first
    match with its index, [None] for [undefined] and [-1]. *)
Definition findById (taskId : string) (draft : list Task.t)
    : option (nat * Task.t) :=
  list_find (λ t, Task.id t = taskId) draft.

(** ** Mutators *)

(** [moveTask] (App.tsx 486-495): the found task object is changed in place,
    so it keeps its position in the array. *)
Definition moveTask (taskId : string) (targetColumn : ColumnId)
    (st : AppState) : AppState :=
  setTasks
    (produce (λ draft,
       match findById taskId draft with
       | Some (i, task) => <[i := Task.set_column targetColumn task]> draft
       | None => draft
       end))
    st.

(** The argument of [onAddTask]. *)
Module TaskData.
Record t : Set := mk {
  title : string;
  description : string;
  points : option Z
}.
End TaskData.

(** [`task-${Date.now()}`], [now] being the clock reading. *)
Definition newTaskId (now : Z) : string := "task-" +:+ pretty now.

(** [handleAddTask] (App.tsx 497-510). *)
Definition handleAddTask (now : Z) (taskData : TaskData.t) (st : AppState)
    : AppState :=
  let newTask :=
    Task.mk (newTaskId now) backlog
            (TaskData.title taskData) (TaskData.description taskData)
            (TaskData.points taskData) (Some []) in
  setShowNewTaskModal false
    (setTasks (produce (λ draft, draft ++ [newTask])) st).

(** [handleUpdateTask] (App.tsx 512-520). *)
Definition handleUpdateTask (updatedTask : Task.t) (st : AppState) : AppState :=
  setEditingTask None
    (setTasks
       (produce (λ draft,
          match findById (Task.id updatedTask) draft with
          | Some (taskIndex, _) => <[taskIndex := updatedTask]> draft
          | None => draft
          end))
       st).

(** [handleDeleteTask] (App.tsx 522-530); [splice(taskIndex, 1)]. *)
Definition handleDeleteTask (taskId : string) (st : AppState) : AppState :=
  setEditingTask None
    (setTasks
       (produce (λ draft,
          match findById taskId draft with
          | Some (taskIndex, _) => delete taskIndex draft
          | None => draft
          end))
       st).

(** [handleUpdateSprint] (App.tsx 536-539). *)
Definition handleUpdateSprint (updatedSprint : Sprint.t) (st : AppState)
    : AppState :=
  setShowSprintModal false (setSprint updatedSprint st).

(** ** The new-task form ([NewTaskModal], App.tsx 161-174) *)

(** White space that [String.prototype.trim] strips, among the code units
    below 256: TAB, LF, VT, FF, CR, SP and NBSP. *)
Definition isWhiteSpace (c : ascii) : bool :=
  match N_of_ascii c with
  | 9 | 10 | 11 | 12 | 13 | 32 | 160 => true
  | _ => false
  end%N.

Fixpoint trimStart (s : string) : string :=
  match s with
  | EmptyString => EmptyString
  | String c s' => if isWhiteSpace c then trimStart s' else s
  end.

Definition trimEnd (s : string) : string :=
  String.rev (trimStart (String.rev s)).

Definition trim (s : string) : string := trimEnd (trimStart s).

(** [!s] for a string: only the empty string is falsy. *)
Definition not_string (s : string) : bool :=
  match s with
  | EmptyString => true
  | String _ _ => false
  end.

(** The form's state; [points] is [''] ([None]) or a number. *)
Record NewTaskForm : Set := mkNewTaskForm {
  form_title : string;
  form_description : string;
  form_points : option Z
}.

(** [handleSubmit] of [NewTaskModal]: the alert shown, if any, and the state
    that [onAddTask] leaves. *)
Definition NewTaskModal_handleSubmit
    (onAddTask : TaskData.t -> AppState -> AppState)
    (form : NewTaskForm) (st : AppState) : option string * AppState :=
  if not_string (trim (form_title form))
     || not_string (trim (form_description form))
  then (Some "Please fill in the title and description.", st)
  else (None,
        onAddTask (TaskData.mk (form_title form) (form_description form)
                               (form_points form)) st).

(** AddTask as the user reaches it: [App] passes [handleAddTask] as the
    [onAddTask] of the form (App.tsx 712-717). *)
Definition AddTask (now : Z) (form : NewTaskForm) (st : AppState)
    : option string * AppState :=
  NewTaskModal_handleSubmit (handleAddTask now) form st.

(** ** Burndown ([sprintDurationDays] and [burndownData], App.tsx 574-598) *)

Definition msPerDay : Q := inject_Z (1000 * 60 * 60 * 24).

Definition sprintDurationDays (s : Sprint.t) : Z :=
  let diffTime :=
    Math_abs (Number.sub (inject_Z (Sprint.endDate s))
                         (inject_Z (Sprint.startDate s))) in
  Math_ceil (Number.div diffTime msPerDay).

(** [task.points || 0]: [undefined] and [0] both give [0]. *)
Definition pointsOr0 (task : Task.t) : Q :=
  match Task.points task with
  | Some p => inject_Z p
  | None => 0%Q
  end.

(** [l.reduce((sum, task) => sum + (task.points || 0), 0)] *)
Definition sumPoints (l : list Task.t) : Q :=
  foldl (λ sum task, Number.add sum (pointsOr0 task)) 0%Q l.

Definition totalPoints (tasks : list Task.t) : Q :=
  sumPoints (filter (λ t, Task.column t ≠ backlog) tasks).

Definition completedPoints (tasks : list Task.t) : Q :=
  sumPoints (filter (λ t, Task.column t = done) tasks).

(** The same sums over the integers, without rounding. *)
Definition pointsZ (task : Task.t) : Z := default 0 (Task.points task).

Definition sumPointsZ (l : list Task.t) : Z :=
  foldl (λ sum task, sum + pointsZ task) 0 l.

Definition totalPointsZ (tasks : list Task.t) : Z :=
  sumPointsZ (filter (λ t, Task.column t ≠ backlog) tasks).

Definition completedPointsZ (tasks : list Task.t) : Z :=
  sumPointsZ (filter (λ t, Task.column t = done) tasks).

Record BurndownPoint : Set := mkBurndownPoint {
  day : Z;
  remaining : Q;
  ideal : Q
}.

Definition pointsPerDay (total : Q) (duration : Z) : Q :=
  if Number.ltb 0 total && (0 <? duration)
  then Number.div total (inject_Z duration)
  else 0%Q.

(** The object pushed by iteration [i] of the loop. *)
Definition burndownEntry (tasks : list Task.t) (total perDay : Q) (i : Z)
    : BurndownPoint :=
  mkBurndownPoint i
    (Number.sub total (completedPoints tasks))
    (Math_max 0
       (Number.div
          (inject_Z
             (Math_round
                (Number.mul (Number.sub total (Number.mul perDay (inject_Z i)))
                            10)))
          10)).

(** [for (let i = ...; i <= duration; i++) data.push(entry(i))].  The fuel
    only makes the recursion structural: the loop ends when its test fails
    (see [burndownLoop_enough]). *)
Fixpoint burndownLoop (fuel : nat) (entry : Z -> BurndownPoint)
    (duration i : Z) (data : list BurndownPoint) : list BurndownPoint :=
  match fuel with
  | O => data
  | S fuel' =>
      if i <=? duration
      then burndownLoop fuel' entry duration (i + 1) (data ++ [entry i])
      else data
  end.

Definition burndownData (tasks : list Task.t) (s : Sprint.t)
    : list BurndownPoint :=
  let total := totalPoints tasks in
  let duration := sprintDurationDays s in
  let data := [mkBurndownPoint 0 total total] in
  let perDay := pointsPerDay total duration in
  burndownLoop (Z.to_nat duration) (burndownEntry tasks total perDay)
               duration 1 data.

(** ** The initial state (App.tsx 10-25) *)

Definition initialTasks : list Task.t :=
  [ Task.mk "task-1" backlog "User Authentication Flow"
      "Design and implement the complete user login and registration process."
      (Some 8) (Some []);
    Task.mk "task-2" backlog "Setup CI/CD Pipeline"
      "Configure GitHub Actions for automated testing and deployment."
      None (Some []);
    Task.mk "task-3" todo "Create Database Schema"
      "Define the initial database schema for users and projects."
      (Some 5) (Some []);
    Task.mk "task-4" in_progress "Develop Landing Page"
      "Build the main marketing landing page with React and Tailwind."
      (Some 3) (Some []);
    Task.mk "task-6" blocked "API Integration"
      "Waiting for backend team to provide the new endpoint."
      (Some 5) (Some []);
    Task.mk "task-5" done "Project Scaffolding"
      "Initialize the React project with TypeScript and basic dependencies."
      (Some 2) (Some []) ].

(** 2024-07-20T00:00:00Z to 2024-08-03T00:00:00Z *)
Definition initialSprint : Sprint.t :=
  Sprint.mk "sprint-1" "Sprint 1" 1721433600000 1722643200000
    "Launch the initial version of the marketing website and user authentication.".

Definition initialState : AppState :=
  mkAppState initialTasks initialSprint false None false.

(** ** The AI gateway client ([services/geminiService.ts]) *)

Module GeminiService.

Inductive Error : Set := mkError (message : string).

(** A [GoogleGenAI] client is the API key it was built with. *)
Record GoogleGenAI : Set := mkGoogleGenAI { apiKey : string }.

Inductive Part : Set :=
  | TextPart (text : string)
  | InlineDataPart (data mimeType : string).

Record GenerateContentRequest : Set := mkRequest {
  model : string;
  parts : list Part
}.

(** What an [async] function does, seen from its caller: it settles, or it
    logs and goes on, or it awaits [ai.models.generateContent], which rejects
    with an error or fulfils with a response whose [text] is passed on. *)
Inductive Async (A : Type) : Type :=
  | Resolve (value : A)
  | Reject (reason : Error)
  | ConsoleError (label : string) (error : Error) (next : Async A)
  | GenerateContent (client : GoogleGenAI) (request : GenerateContentRequest)
      (next : Error + string -> Async A).

Arguments Resolve {A} value.
Arguments Reject {A} reason.
Arguments ConsoleError {A} label error next.
Arguments GenerateContent {A} client request next.

(** [getAiClient]: the module variable [ai] caches the client; without one,
    [process.env.API_KEY] is read.  The result is the client and the new value
    of [ai], or the error thrown. *)
Definition getAiClient (API_KEY : option string) (ai : option GoogleGenAI)
    : Error + GoogleGenAI * option GoogleGenAI :=
  match ai with
  | Some client => inr (client, ai)
  | None =>
      match API_KEY with
      | Some key =>
          if not_string key
          then inl (mkError
            "API_KEY environment variable not set. Please configure it to use AI features.")
          else inr (mkGoogleGenAI key, Some (mkGoogleGenAI key))
      | None => inl (mkError
            "API_KEY environment variable not set. Please configure it to use AI features.")
      end
  end.

(** [s.split(sep)] for a one-character separator: the pieces between the
    separators, at least one. *)
Fixpoint split (sep : ascii) (s : string) : list string :=
  match s with
  | EmptyString => [EmptyString]
  | String c s' =>
      if Ascii.eqb c sep then EmptyString :: split sep s'
      else match split sep s' with
           | piece :: pieces => String c piece :: pieces
           | [] => [String c EmptyString]
           end
  end.

(** The callback of [attachments.map]: the payload after the data URI
    prefix, or the error thrown when there is none. *)
Definition filePart (file : Attachment.t) : Error + Part :=
  match split "," (Attachment.data file) !! 1%nat with
  | Some base64Data =>
      if not_string base64Data
      then inl (mkError ("Invalid base64 data for file " +:+ Attachment.name file))
      else inr (InlineDataPart base64Data (Attachment.type file))
  | None => inl (mkError ("Invalid base64 data for file " +:+ Attachment.name file))
  end.

(** [attachments.map(filePart)], stopped by the first throw. *)
Fixpoint fileParts (attachments : list Attachment.t) : Error + list Part :=
  match attachments with
  | [] => inr []
  | file :: rest =>
      match filePart file with
      | inl e => inl e
      | inr part =>
          match fileParts rest with
          | inl e => inl e
          | inr parts => inr (part :: parts)
          end
      end
  end.

Definition dquote : string := String "034"%char EmptyString.
Definition newline : string := String "010"%char EmptyString.

Definition analyzePrompt (taskTitle : string) : string :=
  newline +:+
  "        You are an expert project manager. Analyze the attached file(s) for the task titled "
  +:+ dquote +:+ taskTitle +:+ dquote +:+ ". " +:+ newline +:+
  "        Based on the content of the files, provide a concise summary and a suggested project workflow or a list of sub-tasks."
  +:+ newline +:+
  "        Format your response clearly with headings for 'Summary' and 'Workflow/Sub-tasks'."
  +:+ newline +:+ "    ".

(** [analyzeTaskAttachments] (geminiService.ts 98-136), in an environment
    with the given [API_KEY] and cached client [ai]. *)
Definition analyzeTaskAttachments (API_KEY : option string)
    (ai : option GoogleGenAI) (taskTitle : string)
    (attachments : list Attachment.t) : Async string :=
  if (length attachments =? 0)%nat then Resolve "No attachments to analyze."
  else
    let prompt := analyzePrompt taskTitle in
    match fileParts attachments with
    | inl e => Reject e
    | inr parts =>
        let textPart := TextPart prompt in
        match getAiClient API_KEY ai with
        | inl e => ConsoleError "Error analyzing attachments:" e (Reject e)
        | inr (client, _) =>
            GenerateContent client
              (mkRequest "gemini-2.5-flash" (textPart :: parts))
              (λ response,
                 match response with
                 | inl e => ConsoleError "Error analyzing attachments:" e (Reject e)
                 | inr text => Resolve text
                 end)
        end
    end.

(** The number of gateway calls along the run that takes the given answers. *)
Fixpoint gatewayCalls {A : Type} (answer : Error + string) (p : Async A) : nat :=
  match p with
  | Resolve _ => 0
  | Reject _ => 0
  | ConsoleError _ _ next => gatewayCalls answer next
  | GenerateContent _ _ next => S (gatewayCalls answer (next answer))
  end.

End GeminiService.

(** ** The board as a state machine

    One step is one call of a mutation handler.  The clock that
    [handleAddTask] reads is part of the environment: any reading may come. *)
Inductive step (st : AppState) : AppState -> Prop :=
  | step_moveTask (taskId : string) (targetColumn : ColumnId) :
      step st (moveTask taskId targetColumn st)
  | step_handleAddTask (now : Z) (taskData : TaskData.t) :
      step st (handleAddTask now taskData st)
  | step_handleUpdateTask (updatedTask : Task.t) :
      step st (handleUpdateTask updatedTask st)
  | step_handleDeleteTask (taskId : string) :
      step st (handleDeleteTask taskId st)
  | step_handleUpdateSprint (updatedSprint : Sprint.t) :
      step st (handleUpdateSprint updatedSprint st).

(** The steps in which the clock gives [handleAddTask] an id that the
    collection does not hold yet. *)
Inductive freshStep (st : AppState) : AppState -> Prop :=
  | fresh_moveTask (taskId : string) (targetColumn : ColumnId) :
      freshStep st (moveTask taskId targetColumn st)
  | fresh_handleAddTask (now : Z) (taskData : TaskData.t) :
      newTaskId now ∉ Task.id <$> tasks st ->
      freshStep st (handleAddTask now taskData st)
  | fresh_handleUpdateTask (updatedTask : Task.t) :
      freshStep st (handleUpdateTask updatedTask st)
  | fresh_handleDeleteTask (taskId : string) :
      freshStep st (handleDeleteTask taskId st)
  | fresh_handleUpdateSprint (updatedSprint : Sprint.t) :
      freshStep st (handleUpdateSprint updatedSprint st).

(** The ids of the tasks are pairwise distinct. *)
Definition distinctIds (st : AppState) : Prop :=
  NoDup (Task.id <$> tasks st).

(** ** Auxiliary notions and sample data *)

(** All the characters are white space (so is the empty string). *)
Fixpoint allWhiteSpace (s : string) : bool :=
  match s with
  | EmptyString => true
  | String c s' => isWhiteSpace c && allWhiteSpace s'
  end.

(** The sprint with its two dates exchanged. *)
Definition swapDates (s : Sprint.t) : Sprint.t :=
  Sprint.mk (Sprint.id s) (Sprint.name s) (Sprint.endDate s)
            (Sprint.startDate s) (Sprint.goal s).

(** A sprint that starts and ends on 2024-07-20. *)
Definition oneDateSprint : Sprint.t :=
  Sprint.mk "sprint-1" "Sprint 1" 1721433600000 1721433600000 "No time".

(** The example of the specification: a sprint of two days, ten points in
    the sprint, nothing done. *)
Definition twoDaySprint : Sprint.t :=
  Sprint.mk "sprint-2" "Sprint 2" 0 172800000 "Two days".

Definition tenPoints : list Task.t :=
  [ Task.mk "task-1" todo "First" "Four points" (Some 4) (Some []);
    Task.mk "task-2" in_progress "Second" "Six points" (Some 6) None;
    Task.mk "task-3" backlog "Third" "Not in the sprint" (Some 7) (Some []) ].

(** Two sprint tasks, the first with a negative estimate. *)
Definition negativePoints : list Task.t :=
  [ Task.mk "task-1" todo "Refund" "Work taken out" (Some (-3)) (Some []);
    Task.mk "task-2" in_progress "Second" "One point" (Some 1) (Some []) ].

(** Two tasks entered through the form. *)
Definition firstData : TaskData.t :=
  TaskData.mk "Write docs" "User guide" (Some 3).
Definition secondData : TaskData.t :=
  TaskData.mk "Write tests" "Unit tests" None.

(** The clock reading at 2024-07-20T00:00:00Z. *)
Definition sameClock : Z := 1721433600000.

(** A form with a title of one space, and a well-filled one. *)
Definition blankTitleForm : NewTaskForm :=
  mkNewTaskForm " " "Something to do" None.
Definition filledForm : NewTaskForm :=
  mkNewTaskForm "Write docs" "User guide" (Some 3).

(** An attachment as [FileReader.readAsDataURL] delivers it, and one whose
    data has no comma. *)
Definition notesAttachment : Attachment.t :=
  Attachment.mk "notes.txt" "text/plain" "data:text/plain;base64,SGVsbG8=".
Definition brokenAttachment : Attachment.t :=
  Attachment.mk "broken.bin" "application/octet-stream" "SGVsbG8=".

(** * The rest of the application code *)

(** ** The board as rendered ([COLUMNS] of constants.ts, App.tsx 675-684) *)

Definition COLUMNS : list (ColumnId * string) :=
  [ (backlog, "Product Backlog");
    (todo, "To Do");
    (in_progress, "In Progress");
    (done, "Done") ].

(** [COLUMNS.map(column => <KanbanColumn tasks={tasksByColumn[column.id] || []}
    .../>)]: the columns shown, each with the tasks it receives. *)
Definition kanbanColumns (tasks : list Task.t)
    : list (ColumnId * list Task.t) :=
  (λ column, (column.1, columnTasks tasks column.1)) <$> COLUMNS.

(** ** The task dialog ([TaskDetailModal], App.tsx 203-274) *)

(** The dialog's own state. *)
Record TaskDetailForm : Set := mkTaskDetailForm {
  detail_title : string;
  detail_description : string;
  detail_points : option Z;      (* [''] is [None] *)
  detail_column : ColumnId;
  detail_attachments : list Attachment.t;
  isAnalyzing : bool
}.

(** [task.points || '']: no points and [0] both give the empty field. *)
Definition pointsOrBlank (points : option Z) : option Z :=
  match points with
  | Some p => if p =? 0 then None else Some p
  | None => None
  end.

(** The initial values of the [useState] calls (App.tsx 209-214). *)
Definition TaskDetailModal_open (task : Task.t) : TaskDetailForm :=
  mkTaskDetailForm (Task.title task) (Task.description task)
    (pointsOrBlank (Task.points task)) (Task.column task)
    (default [] (Task.attachments task)) false.

(** [{...task, title, description, points, column, attachments}] *)
Definition editedTask (task : Task.t) (form : TaskDetailForm) : Task.t :=
  Task.mk (Task.id task) (detail_column form) (detail_title form)
    (detail_description form) (detail_points form)
    (Some (detail_attachments form)).

(** [handleSubmit] of the dialog (App.tsx 216-229): the alert shown, if any,
    and the state that [onSave] leaves. *)
Definition TaskDetailModal_handleSubmit
    (onSave : Task.t -> AppState -> AppState)
    (task : Task.t) (form : TaskDetailForm) (st : AppState)
    : option string * AppState :=
  if not_string (trim (detail_title form))
  then (Some "Title is required.", st)
  else (None, onSave (editedTask task form) st).

(** [handleDelete] (App.tsx 231-235); [confirmed] is the answer to
    [window.confirm]. *)
Definition TaskDetailModal_handleDelete
    (onDelete : string -> AppState -> AppState)
    (confirmed : bool) (task : Task.t) (st : AppState) : AppState :=
  if confirmed then onDelete (Task.id task) st else st.

(** [l.filter((x, i) => keep(x, i))], [i] counting from [start]. *)
Fixpoint filterIndexed {A : Type} (keep : A -> nat -> bool) (start : nat)
    (l : list A) : list A :=
  match l with
  | [] => []
  | x :: l' =>
      if keep x start then x :: filterIndexed keep (S start) l'
      else filterIndexed keep (S start) l'
  end.

Definition setAttachments (f : list Attachment.t -> list Attachment.t)
    (form : TaskDetailForm) : TaskDetailForm :=
  mkTaskDetailForm (detail_title form) (detail_description form)
    (detail_points form) (detail_column form) (f (detail_attachments form))
    (isAnalyzing form).

Definition setDescription (f : string -> string) (form : TaskDetailForm)
    : TaskDetailForm :=
  mkTaskDetailForm (detail_title form) (f (detail_description form))
    (detail_points form) (detail_column form) (detail_attachments form)
    (isAnalyzing form).

Definition setIsAnalyzing (b : bool) (form : TaskDetailForm) : TaskDetailForm :=
  mkTaskDetailForm (detail_title form) (detail_description form)
    (detail_points form) (detail_column form) (detail_attachments form) b.

(** [handleRemoveAttachment] (App.tsx 254-256). *)
Definition handleRemoveAttachment (index : nat) (form : TaskDetailForm)
    : TaskDetailForm :=
  setAttachments (filterIndexed (λ _ i, negb (i =? index)%nat) 0) form.

(** The [onload] callback that [handleFileChange] gives each reader
    (App.tsx 244-249): the file is attached when the reader has data. *)
Definition fileLoaded (name type data : string) (form : TaskDetailForm)
    : TaskDetailForm :=
  if not_string data then form
  else setAttachments (λ prev, prev ++ [Attachment.mk name type data]) form.

(** [await p] inside [try]/[catch]: what follows gets the value or the
    error. *)
Fixpoint awaitTry {A B : Type} (p : GeminiService.Async A)
    (k : GeminiService.Error + A -> GeminiService.Async B)
    : GeminiService.Async B :=
  match p with
  | GeminiService.Resolve a => k (inr a)
  | GeminiService.Reject e => k (inl e)
  | GeminiService.ConsoleError label e next =>
      GeminiService.ConsoleError label e (awaitTry next k)
  | GeminiService.GenerateContent client request next =>
      GeminiService.GenerateContent client request
        (λ answer, awaitTry (next answer) k)
  end.

(** How a run ends when the gateway gives [answer] to every call. *)
Fixpoint settle {A : Type} (answer : GeminiService.Error + string)
    (p : GeminiService.Async A) : GeminiService.Error + A :=
  match p with
  | GeminiService.Resolve a => inr a
  | GeminiService.Reject e => inl e
  | GeminiService.ConsoleError _ _ next => settle answer next
  | GeminiService.GenerateContent _ _ next => settle answer (next answer)
  end.


Definition analysisMarker : string :=
  GeminiService.newline +:+ GeminiService.newline +:+ "--- AI Analysis ---"
  +:+ GeminiService.newline.

(** [handleAnalyzeAttachments] (App.tsx 258-274): the alert shown, if any,
    and the dialog state at the end. *)
Definition handleAnalyzeAttachments (API_KEY : option string)
    (ai : option GeminiService.GoogleGenAI) (form : TaskDetailForm)
    : GeminiService.Async (option string * TaskDetailForm) :=
  if (length (detail_attachments form) =? 0)%nat
  then GeminiService.Resolve
         (Some "Please attach at least one file to analyze.", form)
  else
    awaitTry
      (GeminiService.analyzeTaskAttachments API_KEY ai (detail_title form)
         (detail_attachments form))
      (λ result,
         match result with
         | inr summary =>
             GeminiService.Resolve
               (None,
                setIsAnalyzing false
                  (setDescription (λ prev, prev +:+ analysisMarker +:+ summary)
                     (setIsAnalyzing true form)))
         | inl error =>
             GeminiService.ConsoleError "Failed to analyze attachments:" error
               (GeminiService.Resolve
                  (Some "Error analyzing attachments. Check console for details.",
                   setIsAnalyzing false (setIsAnalyzing true form)))
         end).

(** ** Generated stories ([handleGenerateStories], App.tsx 541-562) *)

Inductive AiFeature : Set := feature_stories | feature_summary.

(** The React state of the AI features. *)
Record AiState : Set := mkAiState {
  isLoading : bool;
  aiFeature : option AiFeature;
  aiGeneratedContent : string;
  showRetroModal : bool;
  showStoriesModal : bool
}.

(** A story as [generateUserStories] returns it. *)
Record Story : Set := mkStory {
  story_title : string;
  story_description : string;
  story_points : Z
}.

(** [`task-${Date.now()}-${index}`] *)
Definition storyTaskId (now : Z) (index : nat) : string :=
  "task-" +:+ pretty now +:+ "-" +:+ pretty index.

(** [newStories.map((story, index) => ({...story, id, column: 'backlog',
    attachments: []}))]; [clock index] is what [Date.now()] returns in the
    call for [index]. *)
Definition storyTasks (clock : nat -> Z) (newStories : list Story)
    : list Task.t :=
  imap (λ index story,
          Task.mk (storyTaskId (clock index) index) backlog
                  (story_title story) (story_description story)
                  (Some (story_points story)) (Some []))
       newStories.

(** The state while the request is pending. *)
Definition storiesPending (ai : AiState) : AiState :=
  mkAiState true (Some feature_stories) (aiGeneratedContent ai)
            (showRetroModal ai) false.

(** The [finally] block. *)
Definition storiesFinally (ai : AiState) : AiState :=
  mkAiState false None (aiGeneratedContent ai) (showRetroModal ai)
            (showStoriesModal ai).

(** [handleGenerateStories], [outcome] being what
    [await generateUserStories(featureIdea)] gives: the alerts shown and the
    final state. *)
Definition handleGenerateStories (clock : nat -> Z) (featureIdea : string)
    (outcome : GeminiService.Error + list Story) (st : AppState * AiState)
    : list string * (AppState * AiState) :=
  if not_string featureIdea then ([], st)
  else
    let pending := storiesPending st.2 in
    match outcome with
    | inr newStories =>
        ([],
         (setTasks (λ prev, prev ++ storyTasks clock newStories) st.1,
          storiesFinally pending))
    | inl error =>
        (["Error generating user stories. Check console for details."],
         (st.1, storiesFinally pending))
    end.

(** [handleSubmit] of [GenerateStoriesModal] (App.tsx 420-426), with
    [handleGenerateStories] as its [onGenerate]. *)
Definition GenerateStoriesModal_handleSubmit (clock : nat -> Z)
    (featureIdea : string) (outcome : GeminiService.Error + list Story)
    (st : AppState * AiState) : list string * (AppState * AiState) :=
  if not_string (trim featureIdea)
  then (["Please enter a feature idea."], st)
  else handleGenerateStories clock featureIdea outcome st.

(** ** Notions for the statements *)

(** Two tasks that the burndown cannot tell apart: both in the backlog or
    both out of it, both done or both not, and the same points once a missing
    value counts as 0. *)
Definition burndownAlike (t t' : Task.t) : Prop :=
  (Task.column t = backlog ↔ Task.column t' = backlog)
  ∧ (Task.column t = done ↔ Task.column t' = done)
  ∧ pointsZ t = pointsZ t'.

(** Every character is a decimal digit. *)
Fixpoint allDigits (s : string) : bool :=
  match s with
  | EmptyString => true
  | String c s' =>
      (48 <=? N_of_ascii c)%N && (N_of_ascii c <=? 57)%N && allDigits s'
  end.

(** ** The sprint dialog ([SprintEditModal], App.tsx 352-379) *)

(** The dialog's state: the two dates are the strings of the date inputs. *)
Record SprintEditForm : Set := mkSprintEditForm {
  sprintForm_name : string;
  sprintForm_goal : string;
  sprintForm_startDate : string;
  sprintForm_endDate : string
}.

(** [a >= b] for two [Date] objects, [None] being an invalid date: its time
    value is [NaN] and every comparison with it is false. *)
Definition dateGe (a b : option Date) : bool :=
  match a, b with
  | Some x, Some y => y <=? x
  | _, _ => false
  end.

(** [handleSubmit] of the dialog.  [newDate] stands for the [Date]
    constructor applied to a string.  The result is [None] when the code would
    hand an invalid date to [onSave], which a [Sprint.t] cannot hold. *)
Definition SprintEditModal_handleSubmit (newDate : string -> option Date)
    (onSave : Sprint.t -> AppState -> AppState)
    (sprint : Sprint.t) (form : SprintEditForm) (st : AppState)
    : option (option string * AppState) :=
  if not_string (trim (sprintForm_name form))
     || not_string (trim (sprintForm_goal form))
     || not_string (sprintForm_startDate form)
     || not_string (sprintForm_endDate form)
  then Some (Some "Please fill in all fields.", st)
  else if dateGe (newDate (sprintForm_startDate form))
                 (newDate (sprintForm_endDate form))
  then Some (Some "The start date must be before the end date.", st)
  else
    match newDate (sprintForm_startDate form +:+ "T00:00:00Z"),
          newDate (sprintForm_endDate form +:+ "T00:00:00Z") with
    | Some startDate, Some endDate =>
        Some (None,
              onSave (Sprint.mk (Sprint.id sprint) (sprintForm_name form)
                                startDate endDate (sprintForm_goal form)) st)
    | _, _ => None
    end.

(** The [Date] constructor on the four strings of a sample dialog. *)
Definition sampleNewDate (s : string) : option Date :=
  if decide (s = "2024-07-20") then Some 1721433600000
  else if decide (s = "2024-07-20T00:00:00Z") then Some 1721433600000
  else if decide (s = "2024-08-03") then Some 1722643200000
  else if decide (s = "2024-08-03T00:00:00Z") then Some 1722643200000
  else None.

Definition sampleSprintForm : SprintEditForm :=
  mkSprintEditForm "Sprint 1" "Ship it" "2024-07-20" "2024-08-03".

(** ** More of the gateway client *)

(** The character occurs in the string. *)
Fixpoint hasChar (c : ascii) (s : string) : bool :=
  match s with
  | EmptyString => false
  | String c' s' => Ascii.eqb c' c || hasChar c s'
  end.

(** [l.join(sep)] *)
Fixpoint join (sep : string) (l : list string) : string :=
  match l with
  | [] => EmptyString
  | [x] => x
  | x :: l' => x +:+ sep +:+ join sep l'
  end.

(** [items.map(item => `- ${item}`).join('\n')], the lists of the
    retrospective prompt (geminiService.ts 77 and 80). *)
Definition bulletList (items : list string) : string :=
  join GeminiService.newline ((λ item, "- " +:+ item) <$> items).

(** The text with ["- "] put after each of its line feeds. *)
Fixpoint dashAfterNewlines (s : string) : string :=
  match s with
  | EmptyString => EmptyString
  | String c s' =>
      if Ascii.eqb c "010"%char
      then String c ("- " +:+ dashAfterNewlines s')
      else String c (dashAfterNewlines s')
  end.

(** The number of line feeds. *)
Fixpoint countNewlines (s : string) : nat :=
  match s with
  | EmptyString => 0
  | String c s' =>
      if Ascii.eqb c "010"%char then S (countNewlines s') else countNewlines s'
  end.

(** What [JSON.parse] can return. *)
Module JSON.
#[local] Unset Elimination Schemes.
Inductive t : Type :=
  | Null
  | Bool (b : bool)
  | Num (n : Q)
  | Str (s : string)
  | Arr (items : list t)
  | Obj (members : list (string * t)).
#[local] Set Elimination Schemes.

(** The value is truthy: not [null], [false], [0] or [""]. *)
Definition truthy (v : t) : bool :=
  match v with
  | Null => false
  | Bool b => b
  | Num n => negb (Qeq_bool n 0)
  | Str s => negb (not_string s)
  | Arr _ => true
  | Obj _ => true
  end.

(** The member of an object for a key: of two members with the same key
    [JSON.parse] keeps the later one. *)
Fixpoint member (key : string) (members : list (string * t)) : option t :=
  match members with
  | [] => None
  | (k, v) :: rest =>
      match member key rest with
      | Some v' => Some v'
      | None => if decide (k = key) then Some v else None
      end
  end.

(** [v[key]] for a key that no prototype defines, as the three keys read
    below: [undefined] ([None]) except on an object that has the member, and a
    [TypeError] on [null]. *)
Definition get (key : string) (v : t) : GeminiService.Error + option t :=
  match v with
  | Null =>
      inl (GeminiService.mkError
             ("Cannot read properties of null (reading '" +:+ key +:+ "')"))
  | Obj members => inr (member key members)
  | _ => inr None
  end.
End JSON.

(** A story as [generateUserStories] builds it: the title and the
    description are whatever truthy value the answer had, [points] is a
    number. *)
Record RawStory : Type := mkRawStory {
  raw_title : JSON.t;
  raw_description : JSON.t;
  raw_points : Q
}.

(** [x || fallback] for a member that may be missing. *)
Definition orElse (x : option JSON.t) (fallback : string) : JSON.t :=
  match x with
  | Some v => if JSON.truthy v then v else JSON.Str fallback
  | None => JSON.Str fallback
  end.

(** The callback of [stories.map] (geminiService.ts 60-64). *)
Definition rawStory (story : JSON.t) : GeminiService.Error + RawStory :=
  match JSON.get "title" story with
  | inl e => inl e
  | inr title =>
      match JSON.get "description" story with
      | inl e => inl e
      | inr description =>
          match JSON.get "points" story with
          | inl e => inl e
          | inr points =>
              inr (mkRawStory
                     (orElse title "Untitled Story")
                     (orElse description "No description provided.")
                     (match points with
                      | Some (JSON.Num n) => n
                      | _ => 0%Q
                      end))
          end
      end
  end.

Fixpoint rawStories (items : list JSON.t)
    : GeminiService.Error + list RawStory :=
  match items with
  | [] => inr []
  | story :: rest =>
      match rawStory story with
      | inl e => inl e
      | inr first =>
          match rawStories rest with
          | inl e => inl e
          | inr others => inr (first :: others)
          end
      end
  end.

(** What [generateUserStories] does with the value that [JSON.parse] gave
    (geminiService.ts 56-64): the stories, or the error thrown, which the
    [catch] logs and throws again. *)
Definition storiesOfParsed (parsed : JSON.t)
    : GeminiService.Error + list RawStory :=
  match parsed with
  | JSON.Arr items => rawStories items
  | _ => inl (GeminiService.mkError "AI did not return an array of stories.")
  end.

(** * Properties *)

(** ** Rounding to binary64 *)

Section NumberFacts.
Import Number.
Local Open Scope Q_scope.

Lemma pow2_pos (e : Z) : 0 < pow2 e.
Proof. apply Qpower_0_lt. reflexivity. Qed.

Lemma pow2_neq0 (e : Z) : ~ pow2 e == 0.
Proof. intros H. pose proof (pow2_pos e) as Hp. rewrite H in Hp. discriminate. Qed.

Lemma pow2_add (a b : Z) : pow2 (a + b) == pow2 a * pow2 b.
Proof. apply Qpower_plus. discriminate. Qed.

Lemma pow2_le (a b : Z) : (a <= b)%Z -> pow2 a <= pow2 b.
Proof. intros H. apply Qpower_le_compat_l; [exact H | discriminate]. Qed.

Lemma pow2_lt (a b : Z) : (a < b)%Z -> pow2 a < pow2 b.
Proof. intros H. apply Qpower_lt_compat_l; [exact H | reflexivity]. Qed.

Lemma pow2_Z (a : Z) : (0 <= a)%Z -> pow2 a == inject_Z (2 ^ a).
Proof. intros H. unfold pow2. by rewrite Zpower_Qpower. Qed.

Lemma pow2_sub (a b : Z) : pow2 (a - b) == pow2 a / pow2 b.
Proof. apply Qpower_minus. discriminate. Qed.

(** [ilog2] brackets a positive rational between two powers of two. *)
Lemma ilog2_spec (x : Q) :
  0 < x -> pow2 (ilog2 x) <= x /\ x < pow2 (ilog2 x + 1).
Proof.
  intros Hx. destruct x as [n d].
  assert (Hn : (0 < n)%Z).
  { unfold Qlt in Hx. simpl in Hx. lia. }
  pose proof (Z.log2_spec n Hn) as [Hn1 Hn2].
  pose proof (Z.log2_spec (Zpos d) (Pos2Z.is_pos d)) as [Hd1 Hd2].
  pose proof (Z.log2_nonneg n) as Ha.
  pose proof (Z.log2_nonneg (Zpos d)) as Hb.
  unfold ilog2. simpl Qnum. simpl Qden.
  set (a := Z.log2 n) in *. set (b := Z.log2 (Z.pos d)) in *.
  assert (Hpa : (0 < 2 ^ a)%Z) by (apply Z.pow_pos_nonneg; lia).
  assert (Hpb : (0 < 2 ^ b)%Z) by (apply Z.pow_pos_nonneg; lia).
  assert (Hsa : (2 ^ Z.succ a = 2 * 2 ^ a)%Z) by (apply Z.pow_succ_r; lia).
  assert (Hsb : (2 ^ Z.succ b = 2 * 2 ^ b)%Z) by (apply Z.pow_succ_r; lia).
  assert (Hhi : n # d < pow2 (a - b + 1)).
  { replace (a - b + 1)%Z with (Z.succ a - b)%Z by lia.
    rewrite pow2_sub, !pow2_Z by lia.
    apply Qlt_shift_div_l; [unfold Qlt; simpl; lia|].
    unfold Qlt, Qmult, inject_Z; simpl. nia. }
  assert (Hlo : pow2 (a - b - 1) <= n # d).
  { replace (a - b - 1)%Z with (a - Z.succ b)%Z by lia.
    rewrite pow2_sub, !pow2_Z by lia.
    apply Qle_shift_div_r; [unfold Qlt; simpl; lia|].
    unfold Qle, Qmult, inject_Z; simpl. nia. }
  destruct (Qle_bool (pow2 (a - b)) (n # d)) eqn:Hb'.
  - apply Qle_bool_iff in Hb'. split; assumption.
  - split; [exact Hlo|].
    replace (a - b - 1 + 1)%Z with (a - b)%Z by lia.
    apply Qnot_le_lt. intros H. apply Qle_bool_iff in H. congruence.
Qed.

Lemma ilog2_unique (x : Q) (e : Z) :
  pow2 e <= x -> x < pow2 (e + 1) -> ilog2 x = e.
Proof.
  intros H1 H2.
  assert (Hx : 0 < x) by (eapply Qlt_le_trans; [apply pow2_pos | exact H1]).
  destruct (ilog2_spec x Hx) as [H3 H4].
  assert (~ (ilog2 x < e)%Z).
  { intros Hlt. apply (Qlt_irrefl x).
    eapply Qlt_le_trans; [exact H4|].
    eapply Qle_trans; [|exact H1]. apply pow2_le. lia. }
  assert (~ (e < ilog2 x)%Z).
  { intros Hlt. apply (Qlt_irrefl x).
    eapply Qlt_le_trans; [exact H2|].
    eapply Qle_trans; [|exact H3]. apply pow2_le. lia. }
  lia.
Qed.

Lemma ilog2_compat (x y : Q) : 0 < x -> x == y -> ilog2 x = ilog2 y.
Proof.
  intros Hx Hxy. symmetry. destruct (ilog2_spec x Hx) as [H1 H2].
  apply ilog2_unique; rewrite <- Hxy; assumption.
Qed.

Lemma ilog2_mono (x y : Q) : 0 < x -> x <= y -> (ilog2 x <= ilog2 y)%Z.
Proof.
  intros Hx Hxy.
  assert (Hy : 0 < y) by (eapply Qlt_le_trans; eassumption).
  destruct (ilog2_spec x Hx) as [H1 _].
  destruct (ilog2_spec y Hy) as [_ H2].
  assert (Hlt : pow2 (ilog2 x) < pow2 (ilog2 y + 1)).
  { eapply Qle_lt_trans; [exact H1|]. eapply Qle_lt_trans; eassumption. }
  apply Qpower_lt_compat_l_inv in Hlt; [lia | reflexivity].
Qed.


Lemma inject_Z_lt_inv (n m : Z) : inject_Z n < inject_Z m -> (n < m)%Z.
Proof. intros H. by rewrite Zlt_Qlt. Qed.

Lemma inject_Z_le_inv (n m : Z) : inject_Z n <= inject_Z m -> (n <= m)%Z.
Proof. intros H. by rewrite Zle_Qle. Qed.

Lemma inject_Z_eq_inv (n m : Z) : inject_Z n == inject_Z m -> n = m.
Proof. intros H. by apply inject_Z_injective. Qed.

Lemma inject_Z_succ (n : Z) : inject_Z (n + 1) == inject_Z n + 1.
Proof. by rewrite inject_Z_plus. Qed.

Lemma rne_spec (x : Q) : is_rne x (rne x).
Proof.
  unfold rne, is_rne.
  pose proof (Qfloor_le x) as Hlo. pose proof (Qlt_floor x) as Hhi.
  rewrite inject_Z_succ in Hhi.
  set (f := Qfloor x) in *.
  destruct (Qcompare_spec (x - inject_Z f) (1 # 2)) as [He|Hl|Hg].
  - destruct (Z.even f) eqn:Hev.
    + right. split; [right; lra | exact Hev].
    + right. split.
      * left. rewrite inject_Z_succ. lra.
      * rewrite Z.even_add, Hev. reflexivity.
  - left. lra.
  - left. rewrite inject_Z_succ. lra.
Qed.

Lemma is_rne_unique (x : Q) (n m : Z) : is_rne x n -> is_rne x m -> n = m.
Proof.
  unfold is_rne.
  assert (Hparity : forall a b : Z,
            Z.even a = true -> Z.even b = true -> b <> (a + 1)%Z).
  { intros a b Ha Hb ->. rewrite Z.even_add, Ha in Hb. discriminate. }
  assert (Hcase : (n < m)%Z \/ n = m \/ (m < n)%Z) by lia.
  assert (Hn1 : (n < m)%Z -> inject_Z n + 1 <= inject_Z m).
  { intros H. rewrite <- inject_Z_succ, <- Zle_Qle. lia. }
  assert (Hm1 : (m < n)%Z -> inject_Z m + 1 <= inject_Z n).
  { intros H. rewrite <- inject_Z_succ, <- Zle_Qle. lia. }
  assert (Hn2 : inject_Z n + 1 == inject_Z m -> m = (n + 1)%Z).
  { intros H. rewrite <- inject_Z_succ in H. by apply inject_Z_eq_inv in H. }
  assert (Hm2 : inject_Z m + 1 == inject_Z n -> n = (m + 1)%Z).
  { intros H. rewrite <- inject_Z_succ in H. by apply inject_Z_eq_inv in H. }
  intros [[H1 H2]|[[H1|H1] Hen]] [[H3 H4]|[[H3|H3] Hem]];
    destruct Hcase as [Hc|[Hc|Hc]]; try exact Hc;
    try (specialize (Hn1 Hc); exfalso; lra);
    try (specialize (Hm1 Hc); exfalso; lra);
    exfalso;
    first [ specialize (Hn1 Hc); apply (Hparity n m Hen Hem); apply Hn2; lra
          | specialize (Hm1 Hc); apply (Hparity m n Hem Hen); apply Hm2; lra ].
Qed.

Lemma rne_unique (x : Q) (n : Z) : is_rne x n -> rne x = n.
Proof. intros H. apply (is_rne_unique x); [apply rne_spec | exact H]. Qed.

Lemma rne_compat (x y : Q) : x == y -> rne x = rne y.
Proof.
  intros H. apply rne_unique. pose proof (rne_spec y) as Hy.
  unfold is_rne in *. rewrite H. exact Hy.
Qed.

Lemma rne_Z (n : Z) : rne (inject_Z n) = n.
Proof. apply rne_unique. left. lra. Qed.

Lemma rne_opp (x : Q) : rne (- x) = (- rne x)%Z.
Proof.
  apply rne_unique. pose proof (rne_spec x) as Hx.
  unfold is_rne in *. rewrite inject_Z_opp, Z.even_opp.
  destruct Hx as [[H1 H2]|[[H1|H1] He]].
  - left. lra.
  - right. split; [right; lra | exact He].
  - right. split; [left; lra | exact He].
Qed.

Lemma rne_mono (x y : Q) : x <= y -> (rne x <= rne y)%Z.
Proof.
  intros Hxy.
  destruct (Z_le_gt_dec (rne x) (rne y)) as [H|H]; [exact H|exfalso].
  assert (Hq : inject_Z (rne y) + 1 <= inject_Z (rne x)).
  { rewrite <- inject_Z_succ, <- Zle_Qle. lia. }
  pose proof (rne_spec x) as Hx. pose proof (rne_spec y) as Hy.
  assert (Hxy' : x == y).
  { unfold is_rne in *.
    destruct Hx as [[H1 H2]|[[H1|H1] Hex]];
      destruct Hy as [[H3 H4]|[[H3|H3] Hey]]; lra. }
  rewrite (rne_compat x y Hxy') in H. lia.
Qed.


Lemma rnd_zero (x : Q) : x == 0 -> rnd x = 0.
Proof. intros H. unfold rnd. apply Qeq_bool_iff in H. by rewrite H. Qed.

Lemma rnd_nonzero (x : Q) :
  ~ x == 0 ->
  rnd x = inject_Z (rne (x / pow2 (ulp_exp x))) * pow2 (ulp_exp x).
Proof.
  intros H. unfold rnd. destruct (Qeq_bool x 0) eqn:E; [|reflexivity].
  apply Qeq_bool_iff in E. contradiction.
Qed.

Lemma Qabs_pos_lt (x : Q) : ~ x == 0 -> 0 < Qabs x.
Proof.
  intros H. destruct (Qlt_le_dec 0 (Qabs x)) as [Hp|Hn]; [exact Hp|].
  exfalso. apply H. pose proof (Qabs_nonneg x) as H0.
  assert (Ha : Qabs x == 0) by lra.
  pose proof (Qle_Qabs x) as H1. pose proof (Qle_Qabs (- x)) as H2.
  rewrite Qabs_opp in H2. lra.
Qed.

Lemma ulp_exp_compat (x y : Q) : ~ x == 0 -> x == y -> ulp_exp x = ulp_exp y.
Proof.
  intros Hx Hxy. unfold ulp_exp.
  rewrite (ilog2_compat (Qabs x) (Qabs y)); [reflexivity | |].
  - by apply Qabs_pos_lt.
  - by rewrite Hxy.
Qed.

Lemma ulp_exp_opp (x : Q) : ulp_exp (- x) = ulp_exp x.
Proof.
  unfold ulp_exp. destruct x as [n d]. unfold Qopp, Qabs. simpl.
  by rewrite Z.abs_opp.
Qed.

Lemma ulp_exp_pos (x : Q) :
  0 < x -> ulp_exp x = Z.max (ilog2 x - 52) (-1074).
Proof.
  intros Hx. unfold ulp_exp.
  rewrite (ilog2_compat (Qabs x) x); [reflexivity | |].
  - apply Qabs_pos_lt. lra.
  - apply Qabs_pos. lra.
Qed.

Lemma rnd_compat : Proper (Qeq ==> Qeq) rnd.
Proof.
  intros x y Hxy. destruct (Qeq_dec x 0) as [Hx|Hx].
  - rewrite (rnd_zero x Hx), (rnd_zero y); [reflexivity|]. by rewrite <- Hxy.
  - assert (Hy : ~ y == 0) by (by rewrite <- Hxy).
    rewrite (rnd_nonzero x Hx), (rnd_nonzero y Hy).
    rewrite <- (ulp_exp_compat x y Hx Hxy).
    rewrite (rne_compat (x / pow2 (ulp_exp x)) (y / pow2 (ulp_exp x)));
      [reflexivity|].
    unfold Qdiv. apply Qmult_comp; [exact Hxy | reflexivity].
Qed.

Lemma rnd_opp (x : Q) : rnd (- x) == - rnd x.
Proof.
  destruct (Qeq_dec x 0) as [Hx|Hx].
  - rewrite (rnd_zero x Hx), (rnd_zero (- x)); [reflexivity|]. lra.
  - assert (Hx' : ~ - x == 0) by (intros H; apply Hx; lra).
    rewrite (rnd_nonzero x Hx), (rnd_nonzero (- x) Hx'), ulp_exp_opp.
    rewrite (rne_compat (- x / pow2 (ulp_exp x)) (- (x / pow2 (ulp_exp x)))).
    + rewrite rne_opp, inject_Z_opp. ring.
    + field. apply pow2_neq0.
Qed.

Lemma rne_nonneg (x : Q) : 0 <= x -> (0 <= rne x)%Z.
Proof. intros H. rewrite <- (rne_Z 0). by apply rne_mono. Qed.

Lemma Qdiv_pow2_le (x y : Q) (q : Z) : x <= y -> x / pow2 q <= y / pow2 q.
Proof.
  intros H. unfold Qdiv. apply Qmult_le_compat_r; [exact H|].
  apply Qlt_le_weak, Qinv_lt_0_compat, pow2_pos.
Qed.

Lemma rnd_nonneg (x : Q) : 0 <= x -> 0 <= rnd x.
Proof.
  intros H. destruct (Qeq_dec x 0) as [Hx|Hx].
  - rewrite (rnd_zero x Hx). lra.
  - rewrite (rnd_nonzero x Hx). apply Qmult_le_0_compat.
    + change 0 with (inject_Z 0). rewrite <- Zle_Qle. apply rne_nonneg.
      apply Qle_shift_div_l; [apply pow2_pos | lra].
    + apply Qlt_le_weak, pow2_pos.
Qed.

(** A positive [x] rounds to at most the top of its binade... *)
Lemma rnd_upper (x : Q) :
  0 < x -> rnd x <= pow2 (ulp_exp x + 53).
Proof.
  intros Hx. rewrite rnd_nonzero by lra.
  rewrite pow2_add, (Qmult_comm (pow2 (ulp_exp x))).
  apply Qmult_le_compat_r; [|apply Qlt_le_weak, pow2_pos].
  rewrite (pow2_Z 53) by lia. rewrite <- Zle_Qle.
  rewrite <- (rne_Z (2 ^ 53)). apply rne_mono.
  rewrite <- (pow2_Z 53) by lia.
  apply Qle_shift_div_r; [apply pow2_pos|].
  rewrite <- pow2_add. destruct (ilog2_spec x Hx) as [_ H].
  apply Qlt_le_weak. eapply Qlt_le_trans; [exact H|].
  apply pow2_le. rewrite (ulp_exp_pos x Hx). lia.
Qed.

(** ... and, when it is a normal number, to at least the bottom of it. *)
Lemma rnd_lower (x : Q) :
  0 < x -> ulp_exp x = (ilog2 x - 52)%Z -> pow2 (ilog2 x) <= rnd x.
Proof.
  intros Hx Hq. rewrite rnd_nonzero by lra. rewrite Hq.
  replace (ilog2 x) with (52 + (ilog2 x - 52))%Z at 1 by lia.
  rewrite pow2_add.
  apply Qmult_le_compat_r; [|apply Qlt_le_weak, pow2_pos].
  rewrite (pow2_Z 52) by lia. rewrite <- Zle_Qle.
  rewrite <- (rne_Z (2 ^ 52)) at 1. apply rne_mono.
  rewrite <- (pow2_Z 52) by lia.
  apply Qle_shift_div_l; [apply pow2_pos|].
  rewrite <- pow2_add. destruct (ilog2_spec x Hx) as [H _].
  replace (52 + (ilog2 x - 52))%Z with (ilog2 x) by lia. exact H.
Qed.

Lemma rnd_mono_pos (x y : Q) : 0 < x -> x <= y -> rnd x <= rnd y.
Proof.
  intros Hx Hxy. assert (Hy : 0 < y) by lra.
  pose proof (ilog2_mono x y Hx Hxy) as He.
  pose proof (ulp_exp_pos x Hx) as Hqx. pose proof (ulp_exp_pos y Hy) as Hqy.
  destruct (Z.eq_dec (ulp_exp x) (ulp_exp y)) as [Heq|Hne].
  - rewrite (rnd_nonzero x), (rnd_nonzero y) by lra. rewrite <- Heq.
    apply Qmult_le_compat_r; [|apply Qlt_le_weak, pow2_pos].
    rewrite <- Zle_Qle. apply rne_mono. by apply Qdiv_pow2_le.
  - eapply Qle_trans; [apply (rnd_upper x Hx)|].
    eapply Qle_trans; [|apply (rnd_lower y Hy); lia].
    apply pow2_le. lia.
Qed.

Lemma rnd_mono (x y : Q) : x <= y -> rnd x <= rnd y.
Proof.
  intros Hxy.
  destruct (Qlt_le_dec 0 x) as [Hx|Hx]; [by apply rnd_mono_pos|].
  destruct (Qlt_le_dec y 0) as [Hy|Hy].
  - assert (H : rnd (- y) <= rnd (- x)) by (apply rnd_mono_pos; lra).
    rewrite !rnd_opp in H. lra.
  - assert (H1 : 0 <= rnd y) by (by apply rnd_nonneg).
    assert (H2 : 0 <= rnd (- x)) by (apply rnd_nonneg; lra).
    rewrite rnd_opp in H2. lra.
Qed.

(** A value with at most 53 significant bits at its own scale is kept. *)
Lemma rnd_exact (x : Q) (m : Z) :
  x / pow2 (ulp_exp x) == inject_Z m -> rnd x == x.
Proof.
  intros H. destruct (Qeq_dec x 0) as [Hx|Hx].
  - rewrite (rnd_zero x Hx). by rewrite Hx.
  - rewrite (rnd_nonzero x Hx), (rne_compat _ _ H), rne_Z, <- H.
    field. apply pow2_neq0.
Qed.

Lemma ilog2_inject_Z (n : Z) : (0 < n)%Z -> ilog2 (inject_Z n) = Z.log2 n.
Proof.
  intros Hn. pose proof (Z.log2_spec n Hn) as [H1 H2].
  pose proof (Z.log2_nonneg n) as H0.
  apply ilog2_unique.
  - rewrite pow2_Z by lia. by rewrite <- Zle_Qle.
  - rewrite pow2_Z by lia. rewrite <- Zlt_Qlt. by rewrite <- Z.add_1_r in H2.
Qed.

Lemma rnd_Z_pos (n : Z) :
  (0 < n <= 2 ^ 53)%Z -> rnd (inject_Z n) == inject_Z n.
Proof.
  intros [Hn Hb].
  assert (Hq : 0 < inject_Z n) by (change 0 with (inject_Z 0); by rewrite <- Zlt_Qlt).
  pose proof (Z.log2_spec n Hn) as [H1 H2].
  pose proof (Z.log2_nonneg n) as H0.
  assert (He : (Z.log2 n <= 53)%Z).
  { etransitivity; [apply Z.log2_le_mono, Hb|]. by rewrite Z.log2_pow2. }
  pose proof (ulp_exp_pos _ Hq) as Hu. rewrite ilog2_inject_Z in Hu by lia.
  destruct (Z.eq_dec (Z.log2 n) 53%Z) as [E|E].
  - assert (n = 2 ^ 53)%Z by (rewrite E in H1; lia). subst n.
    apply (rnd_exact _ (2 ^ 52)). rewrite Hu, E. reflexivity.
  - apply (rnd_exact _ (n * 2 ^ (52 - Z.log2 n))).
    rewrite Hu, Z.max_l by lia.
    rewrite inject_Z_mult, <- pow2_Z by lia.
    replace (52 - Z.log2 n)%Z with (- (Z.log2 n - 52))%Z by lia.
    unfold pow2. rewrite Qpower_opp. reflexivity.
Qed.

Lemma rnd_Z (n : Z) :
  (- 2 ^ 53 <= n <= 2 ^ 53)%Z -> rnd (inject_Z n) == inject_Z n.
Proof.
  intros [H1 H2].
  destruct (Z.lt_trichotomy n 0) as [Hn|[->|Hn]].
  - assert (H : rnd (inject_Z (- n)) == inject_Z (- n)) by (apply rnd_Z_pos; lia).
    rewrite inject_Z_opp, rnd_opp in H. lra.
  - reflexivity.
  - apply rnd_Z_pos. lia.
Qed.

(** The rounding on some well-known values: [0.1], [0.1 + 0.2] computed on
    the rounded operands, a tie above [2^53], the smallest subnormal. *)
Example rnd_one_tenth :
  Qred (rnd (1 # 10)) = 3602879701896397 # 36028797018963968.
Proof. by vm_compute. Qed.

Example add_tenth_fifth :
  Qred (add (rnd (1 # 10)) (rnd (2 # 10)))
  = 1351079888211149 # 4503599627370496.
Proof. by vm_compute. Qed.

Example rnd_tie_to_even :
  Qred (rnd (inject_Z (2 ^ 53 + 1))) = inject_Z (2 ^ 53)
  /\ Qred (rnd (inject_Z (2 ^ 53 + 3))) = inject_Z (2 ^ 53 + 4).
Proof. by vm_compute. Qed.

Example rnd_subnormal :
  Qred (rnd (3 # 2 ^ 1075)) = 1 # 2 ^ 1073
  /\ Qred (rnd (1 # 2 ^ 1075)) = 0.
Proof. by vm_compute. Qed.

End NumberFacts.


(** ** Board projection *)

Lemma tasksByColumn_step_lookup (acc : gmap ColumnId (list Task.t))
    (task : Task.t) (c : ColumnId) :
  tasksByColumn_step acc task !! c =
    if decide (Task.column task = c)
    then Some (default [] (acc !! c) ++ [task])
    else acc !! c.
Proof.
  unfold tasksByColumn_step.
  destruct (decide (Task.column task = c)) as [<-|Hne].
  - destruct (acc !! Task.column task) as [l|] eqn:Hacc.
    + rewrite Hacc. by rewrite lookup_insert_eq.
    + rewrite lookup_insert_eq. by rewrite lookup_insert_eq.
  - destruct (acc !! Task.column task) as [l|] eqn:Hacc.
    + rewrite Hacc. by rewrite lookup_insert_ne.
    + rewrite lookup_insert_eq. by rewrite !lookup_insert_ne.
Qed.

Lemma inColumn_cons (c : ColumnId) (task : Task.t) (l : list Task.t) :
  inColumn c (task :: l) =
    if decide (Task.column task = c) then task :: inColumn c l
    else inColumn c l.
Proof. unfold inColumn. rewrite filter_cons. by case_decide. Qed.

Lemma inColumn_app (c : ColumnId) (l1 l2 : list Task.t) :
  inColumn c (l1 ++ l2) = inColumn c l1 ++ inColumn c l2.
Proof. apply filter_app. Qed.

Lemma tasksByColumn_foldl (l : list Task.t) :
  ∀ (acc : gmap ColumnId (list Task.t)) (c : ColumnId),
    foldl tasksByColumn_step acc l !! c =
      match acc !! c with
      | Some l0 => Some (l0 ++ inColumn c l)
      | None =>
          match inColumn c l with
          | [] => None
          | t :: ts => Some (t :: ts)
          end
      end.
Proof.
  induction l as [|task l IH]; intros acc c; simpl.
  - destruct (acc !! c); [by rewrite app_nil_r | done].
  - rewrite IH, tasksByColumn_step_lookup, inColumn_cons.
    destruct (decide (Task.column task = c)).
    + destruct (acc !! c); simpl; [by rewrite <- app_assoc | done].
    + done.
Qed.

Lemma tasksByColumn_lookup (tasks : list Task.t) (c : ColumnId) :
  tasksByColumn tasks !! c =
    match inColumn c tasks with
    | [] => None
    | t :: ts => Some (t :: ts)
    end.
Proof. unfold tasksByColumn. by rewrite tasksByColumn_foldl, lookup_empty. Qed.

Lemma columnTasks_inColumn (tasks : list Task.t) (c : ColumnId) :
  columnTasks tasks c = inColumn c tasks.
Proof.
  unfold columnTasks. rewrite tasksByColumn_lookup.
  by destruct (inColumn c tasks).
Qed.

(** C1, as stated, fails: for a board without any task in the done column,
    [tasksByColumn] has no entry for that column (the lookup is [undefined],
    not an empty array). *)
Lemma C1_empty_column_absent :
  inColumn done tenPoints = []
  ∧ tasksByColumn tenPoints !! done = None
  ∧ tasksByColumn tenPoints !! done ≠ Some [].
Proof. split_and!; [by vm_compute | by vm_compute | by vm_compute]. Qed.

(** C1, amended: [tasksByColumn] maps a column that holds a task of [T] to
    exactly the tasks of [T] in that column, in the order of [T]; a column that
    holds none has no entry, and the empty sequence comes from the fallback
    [tasksByColumn[C] || []] of the consumer, which yields the tasks of the
    column in every case. *)
Theorem C1_board_projection (T : list Task.t) (C : ColumnId) :
  (tasksByColumn T !! C =
     if decide (inColumn C T = []) then None else Some (inColumn C T))
  ∧ columnTasks T C = inColumn C T
  ∧ (∀ t, t ∈ columnTasks T C ↔ t ∈ T ∧ Task.column t = C)
  ∧ columnTasks T C `sublist_of` T.
Proof.
  split_and!.
  - rewrite tasksByColumn_lookup. by destruct (inColumn C T).
  - apply columnTasks_inColumn.
  - intros t. rewrite columnTasks_inColumn. unfold inColumn.
    rewrite list_elem_of_filter. tauto.
  - rewrite columnTasks_inColumn. apply sublist_filter.
Qed.

(** On the initial board the done column holds ['task-5'] alone. *)
Example tasksByColumn_initial_done :
  Task.id <$> columnTasks initialTasks done = ["task-5"].
Proof. by vm_compute. Qed.

(** ** Burndown *)

Lemma burndownLoop_enough (entry : Z -> BurndownPoint) (duration : Z)
    (fuel : nat) :
  ∀ (i : Z) (data : list BurndownPoint),
    (Z.to_nat (duration + 1 - i) ≤ fuel)%nat →
    burndownLoop fuel entry duration i data =
      data ++ (entry <$> seqZ i (duration + 1 - i)).
Proof.
  induction fuel as [|fuel IH]; intros i data Hfuel; simpl.
  - rewrite seqZ_nil by lia. by rewrite app_nil_r.
  - destruct (Z.leb_spec i duration) as [Hle|Hgt].
    + rewrite IH by lia.
      rewrite (seqZ_cons i) by lia. rewrite fmap_cons, <- app_assoc. simpl.
      repeat f_equal; lia.
    + rewrite seqZ_nil by lia. by rewrite app_nil_r.
Qed.

(** More fuel changes nothing: the loop stops on its test. *)
Lemma burndownLoop_fuel (entry : Z -> BurndownPoint) (duration : Z)
    (fuel : nat) (i : Z) (data : list BurndownPoint) :
  (Z.to_nat (duration + 1 - i) ≤ fuel)%nat →
  burndownLoop fuel entry duration i data =
    burndownLoop (Z.to_nat (duration + 1 - i)) entry duration i data.
Proof. intros H. by rewrite !burndownLoop_enough by lia. Qed.

Lemma sprintDurationDays_nonneg (s : Sprint.t) : 0 ≤ sprintDurationDays s.
Proof.
  unfold sprintDurationDays, Math_ceil, Math_abs, Number.div.
  apply (Qceiling_resp_le 0). apply rnd_nonneg.
  apply Qle_shift_div_l; [reflexivity|].
  rewrite Qmult_0_l. apply Qabs_nonneg.
Qed.

(** The loop in closed form: the day-0 point, then one entry for each of the
    days [1..duration]. *)
Lemma burndownData_eq (tasks : list Task.t) (s : Sprint.t) :
  burndownData tasks s =
    mkBurndownPoint 0 (totalPoints tasks) (totalPoints tasks)
    :: (burndownEntry tasks (totalPoints tasks)
          (pointsPerDay (totalPoints tasks) (sprintDurationDays s))
        <$> seqZ 1 (sprintDurationDays s)).
Proof.
  unfold burndownData. rewrite burndownLoop_enough by lia.
  simpl. repeat f_equal; lia.
Qed.

(** C2: the burndown series has [durationDays + 1] entries, and their [day]
    values are [0, 1, ..., durationDays] in this order: entry [k] is day
    [k]. *)
Theorem C2_burndown_days (tasks : list Task.t) (s : Sprint.t) :
  Z.of_nat (length (burndownData tasks s)) = sprintDurationDays s + 1
  ∧ day <$> burndownData tasks s = seqZ 0 (sprintDurationDays s + 1)
  ∧ (∀ (k : nat) (p : BurndownPoint),
       burndownData tasks s !! k = Some p → day p = Z.of_nat k).
Proof.
  pose proof (sprintDurationDays_nonneg s) as Hd.
  assert (Hdays : day <$> burndownData tasks s
                  = seqZ 0 (sprintDurationDays s + 1)).
  { rewrite burndownData_eq, fmap_cons, <- list_fmap_compose. simpl.
    rewrite (seqZ_cons 0) by lia. f_equal.
    replace (Z.pred (sprintDurationDays s + 1)) with (sprintDurationDays s)
      by lia.
    change (Z.succ 0) with 1.
    etransitivity; [|apply list_fmap_id]. apply list_fmap_ext. by intros. }
  split_and!.
  - rewrite <- (length_fmap day), Hdays, length_seqZ. lia.
  - exact Hdays.
  - intros k p Hk.
    assert (Hl : (day <$> burndownData tasks s) !! k = Some (day p))
      by (by rewrite list_lookup_fmap, Hk).
    rewrite Hdays in Hl. apply lookup_seqZ in Hl. lia.
Qed.

(** The series as triples (day, remaining, ideal), the fractions reduced. *)
Example burndown_two_days :
  (λ p, (day p, Qred (remaining p), Qred (ideal p)))
    <$> burndownData tenPoints twoDaySprint
  = [ (0, 10%Q, 10%Q); (1, 10%Q, 5%Q); (2, 10%Q, 0%Q) ].
Proof. by vm_compute. Qed.

(** The ideal line of the initial board goes through binary64 values that
    are not decimal fractions: 13.9 is [7825004352556237 / 2^49]. *)
Example burndown_initial_day_1 :
  (λ p, (day p, Qred (remaining p), Qred (ideal p)))
    <$> burndownData initialTasks initialSprint !! 1%nat
  = Some (1, 13%Q, 7825004352556237 # 562949953421312).
Proof. by vm_compute. Qed.

(** C2 on the initial board: fourteen days, fifteen entries. *)
Lemma C2_burndown_days_witness :
  length (burndownData initialTasks initialSprint) = 15%nat
  ∧ day <$> burndownData initialTasks initialSprint
    = [0; 1; 2; 3; 4; 5; 6; 7; 8; 9; 10; 11; 12; 13; 14].
Proof.
  destruct (C2_burndown_days initialTasks initialSprint) as (Hlen & Hdays & _).
  split.
  - apply Nat2Z.inj. rewrite Hlen. by vm_compute.
  - rewrite Hdays. by vm_compute.
Defined.

(** C8: the day-0 entry has [remaining = totalPoints]; every later entry has
    [remaining = totalPoints - completedPoints], the same on all the days
    [1..durationDays]. *)
Theorem C8_burndown_remaining (tasks : list Task.t) (s : Sprint.t) :
  remaining <$> burndownData tasks s =
    totalPoints tasks
    :: replicate (Z.to_nat (sprintDurationDays s))
         (Number.sub (totalPoints tasks) (completedPoints tasks)).
Proof.
  rewrite burndownData_eq, fmap_cons, <- list_fmap_compose. simpl. f_equal.
  rewrite <- (length_seqZ 1 (sprintDurationDays s)).
  generalize (seqZ 1 (sprintDurationDays s)) as l.
  induction l as [|i l IH]; [done|].
  rewrite fmap_cons. cbn [length replicate]. by rewrite IH.
Qed.

(** C8 on the initial board: 15 points in the sprint, 2 of them done. *)
Lemma C8_burndown_remaining_witness :
  Qred <$> (remaining <$> burndownData initialTasks initialSprint)
  = 15%Q :: replicate 14 13%Q.
Proof.
  rewrite (C8_burndown_remaining initialTasks initialSprint). by vm_compute.
Defined.

(** *** The ideal line *)

Lemma pointsOr0_Z (task : Task.t) : pointsOr0 task = inject_Z (pointsZ task).
Proof. unfold pointsOr0, pointsZ. by destruct (Task.points task). Qed.

Lemma foldl_pointsZ_ge (l : list Task.t) :
  ∀ a : Z, Forall (λ t, 0 ≤ pointsZ t) l →
    a ≤ foldl (λ sum task, sum + pointsZ task) a l.
Proof.
  induction l as [|t l IH]; intros a Hl; simpl; [lia|].
  inversion_clear Hl as [|? ? Ht Hl'].
  specialize (IH (a + pointsZ t) Hl'). lia.
Qed.

(** Below [2^53] the sum of non-negative integers is exact. *)
Lemma foldl_add_exact (l : list Task.t) :
  ∀ (a : Z) (q : Q),
    (q == inject_Z a)%Q → 0 ≤ a →
    Forall (λ t, 0 ≤ pointsZ t) l →
    foldl (λ sum task, sum + pointsZ task) a l ≤ 2 ^ 53 →
    (foldl (λ sum task, Number.add sum (pointsOr0 task)) q l
     == inject_Z (foldl (λ sum task, (sum + pointsZ task)%Z) a l))%Q.
Proof.
  induction l as [|t l IH]; intros a q Hq Ha Hl Hb; simpl in *; [exact Hq|].
  inversion_clear Hl as [|? ? Ht Hl'].
  pose proof (foldl_pointsZ_ge l (a + pointsZ t) Hl') as Hge.
  apply IH; [|lia|exact Hl'|exact Hb].
  unfold Number.add. rewrite pointsOr0_Z.
  rewrite <- (rnd_Z (a + pointsZ t)) by lia.
  apply rnd_compat. rewrite Hq, inject_Z_plus. reflexivity.
Qed.

Lemma sumPoints_exact (l : list Task.t) :
  Forall (λ t, 0 ≤ pointsZ t) l → sumPointsZ l ≤ 2 ^ 53 →
  (sumPoints l == inject_Z (sumPointsZ l))%Q.
Proof.
  intros Hl Hb. apply foldl_add_exact; [reflexivity | lia | exact Hl | exact Hb].
Qed.

Lemma sumPointsZ_nonneg (l : list Task.t) :
  Forall (λ t, 0 ≤ pointsZ t) l → 0 ≤ sumPointsZ l.
Proof. apply foldl_pointsZ_ge. Qed.

Lemma totalPoints_exact (tasks : list Task.t) :
  Forall (λ t, 0 ≤ pointsZ t) tasks → totalPointsZ tasks ≤ 2 ^ 53 →
  (totalPoints tasks == inject_Z (totalPointsZ tasks))%Q
  ∧ 0 ≤ totalPointsZ tasks.
Proof.
  intros Hl Hb. unfold totalPoints, totalPointsZ in *.
  assert (Hf : Forall (λ t, 0 ≤ pointsZ t)
                 (filter (λ t, Task.column t ≠ backlog) tasks)).
  { rewrite Forall_forall in Hl. apply Forall_forall.
    intros t [_ Ht]%list_elem_of_filter. by apply Hl. }
  split; [by apply sumPoints_exact | by apply sumPointsZ_nonneg].
Qed.

Lemma foldl_pointsZ_shift (l : list Task.t) :
  ∀ a : Z, foldl (λ sum task, sum + pointsZ task) a l = a + sumPointsZ l.
Proof.
  unfold sumPointsZ. induction l as [|t l IH]; intros a; simpl; [lia|].
  rewrite (IH (a + pointsZ t)), (IH (0 + pointsZ t)). lia.
Qed.

Lemma sumPointsZ_cons (t : Task.t) (l : list Task.t) :
  sumPointsZ (t :: l) = pointsZ t + sumPointsZ l.
Proof. unfold sumPointsZ at 1. simpl. apply foldl_pointsZ_shift. Qed.

(** The done tasks are sprint tasks: what is completed is part of the total. *)
Lemma completedPointsZ_le_total (tasks : list Task.t) :
  Forall (λ t, 0 ≤ pointsZ t) tasks →
  0 ≤ completedPointsZ tasks ≤ totalPointsZ tasks.
Proof.
  unfold completedPointsZ, totalPointsZ.
  induction 1 as [|t l Ht Hl IH]; [done|].
  rewrite !filter_cons.
  destruct (decide (Task.column t = done)) as [Hd|Hd].
  - rewrite decide_True by (by rewrite Hd). rewrite !sumPointsZ_cons. lia.
  - destruct (decide (Task.column t ≠ backlog));
      rewrite ?sumPointsZ_cons; lia.
Qed.

(** For points that are not negative and a total below [2^53], the
    [remaining] value of the days after day 0 is the exact difference of the
    two integer sums. *)
Lemma remaining_exact (tasks : list Task.t) :
  Forall (λ t, 0 ≤ pointsZ t) tasks → totalPointsZ tasks ≤ 2 ^ 53 →
  (Number.sub (totalPoints tasks) (completedPoints tasks)
   == inject_Z (totalPointsZ tasks - completedPointsZ tasks))%Q.
Proof.
  intros Hnn Hb.
  destruct (totalPoints_exact tasks Hnn Hb) as [HT HT0].
  destruct (completedPointsZ_le_total tasks Hnn) as [HC0 HCT].
  assert (HC : (completedPoints tasks == inject_Z (completedPointsZ tasks))%Q).
  { apply sumPoints_exact; [|unfold completedPointsZ in *; lia].
    rewrite Forall_forall in Hnn. apply Forall_forall.
    intros t [_ Ht]%list_elem_of_filter. by apply Hnn. }
  unfold Number.sub.
  rewrite <- (rnd_Z (totalPointsZ tasks - completedPointsZ tasks)) by lia.
  apply rnd_compat. rewrite HT, HC. unfold Zminus.
  rewrite inject_Z_plus, inject_Z_opp. reflexivity.
Qed.

Lemma pointsPerDay_nonneg (total : Q) (duration : Z) :
  (0 <= pointsPerDay total duration)%Q.
Proof.
  unfold pointsPerDay, Number.ltb.
  destruct (Qcompare_spec 0 total) as [H|H|H]; simpl; try apply Qle_refl.
  destruct (Z.ltb_spec 0 duration) as [Hd|Hd]; [|apply Qle_refl].
  apply rnd_nonneg. apply Qle_shift_div_l.
  - change 0%Q with (inject_Z 0). rewrite <- Zlt_Qlt. exact Hd.
  - rewrite Qmult_0_l. by apply Qlt_le_weak.
Qed.

(** The value handed to [Math.max(0, _)] on day [i]. *)
Lemma ideal_burndownEntry (tasks : list Task.t) (total perDay : Q) (i : Z) :
  ideal (burndownEntry tasks total perDay i) =
    Qmax 0
      (Number.rnd
         (inject_Z
            (Qfloor
               (Number.rnd
                  (Number.rnd (total - Number.rnd (perDay * inject_Z i)) * 10)
                + (1 # 2)))
          / 10)).
Proof. reflexivity. Qed.

Lemma ideal_entry_mono (tasks : list Task.t) (total perDay : Q) (i j : Z) :
  (0 <= perDay)%Q → i ≤ j →
  (ideal (burndownEntry tasks total perDay j)
   <= ideal (burndownEntry tasks total perDay i))%Q.
Proof.
  intros Hp Hij. rewrite !ideal_burndownEntry.
  apply Q.max_le_compat_l. apply rnd_mono.
  apply Qmult_le_compat_r; [|discriminate].
  rewrite <- Zle_Qle. apply Qfloor_resp_le.
  apply Qplus_le_l. apply rnd_mono.
  apply Qmult_le_compat_r; [|discriminate].
  apply rnd_mono.
  assert (H : (Number.rnd (perDay * inject_Z i)
               <= Number.rnd (perDay * inject_Z j))%Q).
  { apply rnd_mono. rewrite !(Qmult_comm perDay).
    apply Qmult_le_compat_r; [|exact Hp]. by rewrite <- Zle_Qle. }
  lra.
Qed.

Lemma ideal_entry_le_total (tasks : list Task.t) (total perDay : Q)
    (T i : Z) :
  (total == inject_Z T)%Q → 0 ≤ T → 10 * T ≤ 2 ^ 53 →
  (0 <= perDay)%Q → 0 ≤ i →
  (ideal (burndownEntry tasks total perDay i) <= total)%Q.
Proof.
  intros HT HT0 Hb Hp Hi. rewrite ideal_burndownEntry.
  assert (Hm : (0 <= Number.rnd (perDay * inject_Z i))%Q).
  { apply rnd_nonneg. apply Qmult_le_0_compat; [exact Hp|].
    change 0%Q with (inject_Z 0). by rewrite <- Zle_Qle. }
  assert (H1 : (Number.rnd (total - Number.rnd (perDay * inject_Z i))
                <= inject_Z T)%Q).
  { rewrite <- (rnd_Z T) by lia. apply rnd_mono. lra. }
  assert (H2 : (Number.rnd
                  (Number.rnd (total - Number.rnd (perDay * inject_Z i)) * 10)
                <= inject_Z (10 * T))%Q).
  { rewrite <- (rnd_Z (10 * T)) by lia. apply rnd_mono.
    rewrite inject_Z_mult. change (inject_Z 10) with 10%Q. lra. }
  assert (HTle : (inject_Z T <= total)%Q) by (rewrite HT; apply Qle_refl).
  assert (HrT : (Number.rnd (inject_Z T) <= inject_Z T)%Q)
    by (rewrite rnd_Z by lia; apply Qle_refl).
  apply Q.max_lub.
  { eapply Qle_trans; [|exact HTle].
    change 0%Q with (inject_Z 0). by rewrite <- Zle_Qle. }
  eapply Qle_trans; [|exact HTle]. eapply Qle_trans; [|exact HrT].
  apply rnd_mono.
  apply Qle_shift_div_r; [reflexivity|].
  change 10%Q with (inject_Z 10). rewrite <- inject_Z_mult, <- Zle_Qle.
  replace (T * 10) with (Qfloor (inject_Z (10 * T) + (1 # 2))).
  - apply Qfloor_resp_le. apply Qplus_le_l. exact H2.
  - unfold Qfloor, Qplus, inject_Z. simpl.
    symmetry. apply Z.div_unique with (r := 1); lia.
Qed.

Lemma burndownData_lookup_0 (tasks : list Task.t) (s : Sprint.t) :
  burndownData tasks s !! 0%nat =
    Some (mkBurndownPoint 0 (totalPoints tasks) (totalPoints tasks)).
Proof. by rewrite burndownData_eq. Qed.

Lemma burndownData_lookup_S (tasks : list Task.t) (s : Sprint.t) (k : nat)
    (p : BurndownPoint) :
  burndownData tasks s !! S k = Some p →
  Z.of_nat (S k) ≤ sprintDurationDays s
  ∧ p = burndownEntry tasks (totalPoints tasks)
          (pointsPerDay (totalPoints tasks) (sprintDurationDays s))
          (Z.of_nat (S k)).
Proof.
  rewrite burndownData_eq. simpl. rewrite list_lookup_fmap.
  intros (i & Hi & ->)%fmap_Some. apply lookup_seqZ in Hi as [-> Hlt].
  split; [lia | f_equal; lia].
Qed.

(** From day 1 on the ideal line never rises and never goes below zero,
    whatever the points are: [pointsPerDay] is never negative and
    [Math.max(0, _)] cuts the line at zero. *)
Lemma ideal_from_day_1 (tasks : list Task.t) (s : Sprint.t) (i j : nat)
    (p q : BurndownPoint) :
  (1 ≤ i ≤ j)%nat →
  burndownData tasks s !! i = Some p →
  burndownData tasks s !! j = Some q →
  (0 <= ideal q <= ideal p)%Q.
Proof.
  intros [Hi Hij] Hp Hq.
  destruct i as [|i]; [lia|]. destruct j as [|j]; [lia|].
  apply burndownData_lookup_S in Hp as [_ ->].
  apply burndownData_lookup_S in Hq as [_ ->].
  split.
  - rewrite ideal_burndownEntry. apply Q.le_max_l.
  - apply ideal_entry_mono; [apply pointsPerDay_nonneg | lia].
Qed.

(** C3, as stated, fails: the day-0 entry is the total itself, without
    [Math.max]; with points -3 and 1 in the sprint its [ideal] is -2, and the
    line then rises to 0. *)
Lemma C3_negative_points_ideal :
  (λ p, (day p, Qred (ideal p))) <$> burndownData negativePoints twoDaySprint
  = [ (0, (-2)%Q); (1, 0%Q); (2, 0%Q) ]
  ∧ ∃ p q : BurndownPoint,
      burndownData negativePoints twoDaySprint !! 0%nat = Some p
      ∧ burndownData negativePoints twoDaySprint !! 1%nat = Some q
      ∧ (ideal p < 0)%Q
      ∧ (ideal p < ideal q)%Q.
Proof.
  split; [by vm_compute|].
  eexists _, _. split_and!; [by vm_compute | by vm_compute | |]; by vm_compute.
Qed.

(** C3, amended: for tasks whose points are not negative (and whose total is
    small enough for ten times it to be an exact binary64 integer), no [ideal]
    value of the burndown series is negative, the day-0 one included, and a
    later entry never has a larger [ideal] than an earlier one. *)
Theorem C3_ideal_nonincreasing_nonneg (tasks : list Task.t) (s : Sprint.t) :
  Forall (λ t, 0 ≤ pointsZ t) tasks →
  10 * totalPointsZ tasks ≤ 2 ^ 53 →
  (∀ (k : nat) (p : BurndownPoint),
     burndownData tasks s !! k = Some p → (0 <= ideal p)%Q)
  ∧ (∀ (i j : nat) (p q : BurndownPoint),
       (i ≤ j)%nat →
       burndownData tasks s !! i = Some p →
       burndownData tasks s !! j = Some q →
       (ideal q <= ideal p)%Q).
Proof.
  intros Hnn Hb.
  destruct (totalPoints_exact tasks Hnn) as [HT HT0].
  { destruct (Z.le_gt_cases 0 (totalPointsZ tasks)); lia. }
  pose proof (pointsPerDay_nonneg (totalPoints tasks) (sprintDurationDays s))
    as Hp.
  split.
  - intros [|k] p Hk.
    + rewrite burndownData_lookup_0 in Hk. injection Hk as <-. simpl.
      rewrite HT. change 0%Q with (inject_Z 0). by rewrite <- Zle_Qle.
    + apply burndownData_lookup_S in Hk as [_ ->].
      rewrite ideal_burndownEntry. apply Q.le_max_l.
  - intros i j p q Hij Hi Hj. destruct j as [|j].
    + assert (i = 0)%nat as -> by lia.
      rewrite Hi in Hj. injection Hj as <-. apply Qle_refl.
    + apply burndownData_lookup_S in Hj as [_ ->]. destruct i as [|i].
      * rewrite burndownData_lookup_0 in Hi. injection Hi as <-. simpl ideal.
        apply (ideal_entry_le_total tasks _ _ (totalPointsZ tasks));
          [exact HT | exact HT0 | exact Hb | exact Hp | lia].
      * apply burndownData_lookup_S in Hi as [_ ->].
        apply ideal_entry_mono; [exact Hp | lia].
Qed.

(** C3 on the initial board. *)
Lemma C3_ideal_witness :
  (Forall (λ t, 0 ≤ pointsZ t) initialTasks
   ∧ 10 * totalPointsZ initialTasks ≤ 2 ^ 53)
  ∧ (∀ (k : nat) (p : BurndownPoint),
       burndownData initialTasks initialSprint !! k = Some p →
       (0 <= ideal p)%Q)
  ∧ (∀ (i j : nat) (p q : BurndownPoint),
       (i ≤ j)%nat →
       burndownData initialTasks initialSprint !! i = Some p →
       burndownData initialTasks initialSprint !! j = Some q →
       (ideal q <= ideal p)%Q).
Proof.
  assert (H1 : Forall (λ t, 0 ≤ pointsZ t) initialTasks).
  { repeat constructor; vm_compute; discriminate. }
  assert (H2 : 10 * totalPointsZ initialTasks ≤ 2 ^ 53).
  { vm_compute. discriminate. }
  split; [split; assumption|].
  exact (C3_ideal_nonincreasing_nonneg initialTasks initialSprint H1 H2).
Defined.

(** ** UpdateSprint and the sprint duration *)

Lemma Qceiling_pos (x : Q) : (0 < x)%Q → 1 ≤ Qceiling x.
Proof.
  intros Hx. pose proof (Qle_ceiling x) as H.
  assert (H0 : (inject_Z 0 < inject_Z (Qceiling x))%Q)
    by (change (inject_Z 0) with 0%Q; lra).
  rewrite <- Zlt_Qlt in H0. lia.
Qed.

Lemma sub_swap_abs (a b : Z) :
  (Qabs (Number.sub (inject_Z a) (inject_Z b))
   == Qabs (Number.sub (inject_Z b) (inject_Z a)))%Q.
Proof.
  unfold Number.sub.
  rewrite (rnd_compat (inject_Z b - inject_Z a)%Q
                       (- (inject_Z a - inject_Z b))%Q) by ring.
  by rewrite rnd_opp, Qabs_opp.
Qed.

Lemma sprintDurationDays_swap (s : Sprint.t) :
  sprintDurationDays (swapDates s) = sprintDurationDays s.
Proof.
  unfold sprintDurationDays, Math_ceil, Math_abs, Number.div. simpl.
  apply Qceiling_comp, rnd_compat. unfold Qdiv.
  apply Qmult_comp; [apply sub_swap_abs | reflexivity].
Qed.

Lemma sprintDurationDays_same (s : Sprint.t) :
  Sprint.startDate s = Sprint.endDate s → sprintDurationDays s = 0.
Proof.
  intros H. unfold sprintDurationDays, Math_ceil, Math_abs, Number.div,
    Number.sub. rewrite H.
  rewrite (rnd_zero (_ - _)%Q) by ring.
  by rewrite (rnd_zero (_ / _)%Q).
Qed.

Lemma sub_abs_ge_1 (a b : Z) :
  a ≠ b → (1 <= Qabs (Number.sub (inject_Z a) (inject_Z b)))%Q.
Proof.
  intros Hab. unfold Number.sub.
  assert (H1 : (Number.rnd 1 == 1)%Q) by (apply (rnd_Z 1); lia).
  assert (Hm1 : (Number.rnd (- (1)) == - (1))%Q) by (apply (rnd_Z (-1)); lia).
  destruct (Z.lt_trichotomy a b) as [Hlt|[Heq|Hgt]]; [|done|].
  - assert (H : (Number.rnd (inject_Z a - inject_Z b) <= Number.rnd (- (1)))%Q).
    { apply rnd_mono. unfold Qle, Qminus, Qplus, Qopp, inject_Z. simpl. lia. }
    apply Qabs_case; intros; lra.
  - assert (H : (Number.rnd 1 <= Number.rnd (inject_Z a - inject_Z b))%Q).
    { apply rnd_mono. unfold Qle, Qminus, Qplus, Qopp, inject_Z. simpl. lia. }
    apply Qabs_case; intros; lra.
Qed.

Lemma sprintDurationDays_differ (s : Sprint.t) :
  Sprint.startDate s ≠ Sprint.endDate s → 1 ≤ sprintDurationDays s.
Proof.
  intros H. unfold sprintDurationDays, Math_ceil, Math_abs, Number.div.
  apply Qceiling_pos.
  assert (Hpos : (0 < Number.rnd (1 / msPerDay))%Q) by (by vm_compute).
  eapply Qlt_le_trans; [exact Hpos|]. apply rnd_mono.
  unfold Qdiv. apply Qmult_le_compat_r; [|by vm_compute].
  apply sub_abs_ge_1. congruence.
Qed.

(** C7, as stated, fails: with the dates of the initial sprint reversed
    (start 2024-08-03, end 2024-07-20) the duration is 14 days, not 0, and the
    burndown has 15 points, not one. *)
Lemma C7_reversed_dates_not_degenerate :
  let s := swapDates initialSprint in
  Sprint.endDate s < Sprint.startDate s
  ∧ sprintDurationDays (sprint (handleUpdateSprint s initialState)) = 14
  ∧ length (burndownData (tasks (handleUpdateSprint s initialState))
                         (sprint (handleUpdateSprint s initialState)))
    = 15%nat.
Proof. by vm_compute. Qed.

(** C7, amended: [handleUpdateSprint] stores whatever sprint it is given and
    leaves the tasks alone.  The duration takes the absolute difference of the
    dates: exchanging them does not change it, it is at least one day as soon
    as the dates differ, and the degenerate burndown (duration 0, the day-0
    point alone) is that of equal dates. *)
Theorem C7_update_sprint_duration (updatedSprint : Sprint.t) (st : AppState) :
  sprint (handleUpdateSprint updatedSprint st) = updatedSprint
  ∧ tasks (handleUpdateSprint updatedSprint st) = tasks st
  ∧ sprintDurationDays (swapDates updatedSprint)
    = sprintDurationDays updatedSprint
  ∧ (Sprint.startDate updatedSprint ≠ Sprint.endDate updatedSprint →
     1 ≤ sprintDurationDays updatedSprint)
  ∧ (Sprint.startDate updatedSprint = Sprint.endDate updatedSprint →
     sprintDurationDays updatedSprint = 0
     ∧ burndownData (tasks st) updatedSprint
       = [mkBurndownPoint 0 (totalPoints (tasks st)) (totalPoints (tasks st))]).
Proof.
  split_and!; try reflexivity.
  - apply sprintDurationDays_swap.
  - apply sprintDurationDays_differ.
  - intros H. split; [by apply sprintDurationDays_same|].
    rewrite burndownData_eq, (sprintDurationDays_same _ H). reflexivity.
Qed.

(** C7 at a sprint that starts and ends on the same date. *)
Lemma C7_update_sprint_witness :
  Sprint.startDate oneDateSprint = Sprint.endDate oneDateSprint
  ∧ sprintDurationDays oneDateSprint = 0
  ∧ burndownData initialTasks oneDateSprint
    = [mkBurndownPoint 0 (totalPoints initialTasks) (totalPoints initialTasks)].
Proof.
  split; [reflexivity|].
  exact (proj2 (proj2 (proj2 (proj2
    (C7_update_sprint_duration oneDateSprint initialState)))) eq_refl).
Defined.

(** ** Mutators *)

Lemma findById_None (taskId : string) (draft : list Task.t) :
  taskId ∉ Task.id <$> draft → findById taskId draft = None.
Proof.
  intros Hnot. unfold findById. apply list_find_None, Forall_forall.
  intros t Ht Hid. apply Hnot. rewrite <- Hid. by apply list_elem_of_fmap_2.
Qed.

Lemma findById_first (taskId : string) (pre post : list Task.t) (t : Task.t) :
  Task.id t = taskId →
  Forall (λ u, Task.id u ≠ taskId) pre →
  findById taskId (pre ++ t :: post) = Some (length pre, t).
Proof.
  intros Hid Hpre. unfold findById. induction Hpre as [|u pre Hu Hpre IH]; simpl.
  - by rewrite decide_True.
  - rewrite decide_False by done. by rewrite IH.
Qed.

(** A collection that holds the id splits at its first task with that id. *)
Lemma split_at_first_id (taskId : string) (draft : list Task.t) :
  taskId ∈ Task.id <$> draft →
  ∃ (pre post : list Task.t) (t : Task.t),
    draft = pre ++ t :: post
    ∧ Task.id t = taskId
    ∧ Forall (λ u, Task.id u ≠ taskId) pre.
Proof.
  induction draft as [|u draft IH]; intros Hin; [by apply elem_of_nil in Hin|].
  destruct (decide (Task.id u = taskId)) as [Heq|Hne].
  - by exists [], draft, u.
  - rewrite fmap_cons in Hin. apply elem_of_cons in Hin as [Hin|Hin]; [done|].
    destruct (IH Hin) as (pre & post & t & -> & Hid & Hpre).
    exists (u :: pre), post, t. split_and!; [done | done | by constructor].
Qed.

Lemma findById_Some (taskId : string) (draft : list Task.t) (i : nat)
    (t : Task.t) :
  findById taskId draft = Some (i, t) →
  draft !! i = Some t ∧ Task.id t = taskId.
Proof.
  unfold findById. intros (Hi & Hid & _)%list_find_Some. done.
Qed.

(** C5: with an id that no task has, [moveTask], [handleUpdateTask] and
    [handleDeleteTask] return the task collection as it was; [moveTask]
    changes nothing at all, the other two only close the edit dialog.  The
    handlers are total functions: there is no failure to report. *)
Theorem C5_unknown_id_noop (taskId : string) (targetColumn : ColumnId)
    (updatedTask : Task.t) (st : AppState) :
  taskId ∉ Task.id <$> tasks st →
  Task.id updatedTask = taskId →
  moveTask taskId targetColumn st = st
  ∧ tasks (handleUpdateTask updatedTask st) = tasks st
  ∧ handleUpdateTask updatedTask st = setEditingTask None st
  ∧ tasks (handleDeleteTask taskId st) = tasks st
  ∧ handleDeleteTask taskId st = setEditingTask None st.
Proof.
  intros Hnot Hid. pose proof (findById_None taskId (tasks st) Hnot) as Hfind.
  destruct st as [ts sp nm et sm]. simpl in *.
  unfold moveTask, handleUpdateTask, handleDeleteTask, setTasks,
    setEditingTask, produce. simpl. rewrite Hid, Hfind. done.
Qed.

(** C5 on the initial board, which has no task ['task-99']. *)
Lemma C5_unknown_id_witness :
  moveTask "task-99" done initialState = initialState
  ∧ tasks (handleUpdateTask
             (Task.mk "task-99" todo "Ghost" "Not on the board" (Some 1) None)
             initialState) = initialTasks
  ∧ tasks (handleDeleteTask "task-99" initialState) = initialTasks.
Proof.
  assert (Hnot : "task-99" ∉ Task.id <$> tasks initialState).
  { vm_compute. intros H. repeat (apply elem_of_cons in H as [H|H];
      [discriminate|]). by apply elem_of_nil in H. }
  destruct (C5_unknown_id_noop "task-99" done
              (Task.mk "task-99" todo "Ghost" "Not on the board" (Some 1) None)
              initialState Hnot eq_refl) as (H1 & H2 & _ & H3 & _).
  split_and!; assumption.
Defined.

Lemma moveTask_split (pre post : list Task.t) (t : Task.t)
    (targetColumn : ColumnId) (st : AppState) :
  tasks st = pre ++ t :: post →
  Forall (λ u, Task.id u ≠ Task.id t) pre →
  moveTask (Task.id t) targetColumn st =
    setTasks (λ _, pre ++ Task.set_column targetColumn t :: post) st.
Proof.
  intros Hts Hpre. unfold moveTask, setTasks, produce.
  rewrite Hts, (findById_first (Task.id t) pre post t eq_refl Hpre).
  f_equal. replace (length pre) with (length pre + 0)%nat by lia.
  by rewrite insert_app_r.
Qed.

Lemma inColumn_set_column (c : ColumnId) (pre post : list Task.t)
    (t : Task.t) :
  inColumn c (pre ++ Task.set_column c t :: post) =
    inColumn c pre ++ Task.set_column c t :: inColumn c post.
Proof. rewrite inColumn_app, inColumn_cons. simpl. by rewrite decide_True. Qed.

(** C4, as stated, fails: on the initial board, ['task-3'] dropped on the
    done column is shown first there, before ['task-5'], not at the end. *)
Lemma C4_moved_task_not_last :
  Task.id <$> columnTasks (tasks (moveTask "task-3" done initialState)) done
  = ["task-3"; "task-5"]
  ∧ Task.id <$> last (columnTasks
                        (tasks (moveTask "task-3" done initialState)) done)
    = Some "task-5".
Proof. by vm_compute. Qed.

(** C4, amended: when the collection holds a task with the id, [moveTask]
    changes the column of the first such task [t] (no task before it has the
    id) and nothing else: the other
    state, the other tasks, the other fields of [t] and the position of [t]
    in the collection stay.  So in the target column [t] stands after the
    tasks of that column that precede it in the collection and before those
    that follow it; it is last when none follows. *)
Theorem C4_move_task (taskId : string) (targetColumn : ColumnId)
    (st : AppState) :
  taskId ∈ Task.id <$> tasks st →
  ∃ (pre post : list Task.t) (t : Task.t),
    tasks st = pre ++ t :: post
    ∧ Task.id t = taskId
    ∧ Forall (λ u, Task.id u ≠ taskId) pre
    ∧ moveTask taskId targetColumn st =
        setTasks (λ _, pre ++ Task.set_column targetColumn t :: post) st
    ∧ columnTasks (tasks (moveTask taskId targetColumn st)) targetColumn =
        inColumn targetColumn pre
        ++ Task.set_column targetColumn t :: inColumn targetColumn post
    ∧ (inColumn targetColumn post = [] →
       last (columnTasks (tasks (moveTask taskId targetColumn st))
                         targetColumn)
       = Some (Task.set_column targetColumn t)).
Proof.
  intros Hin.
  destruct (split_at_first_id taskId (tasks st) Hin)
    as (pre & post & t & Hts & Hid & Hpre).
  exists pre, post, t. subst taskId.
  pose proof (moveTask_split pre post t targetColumn st Hts Hpre) as Hmove.
  assert (Hcol :
    columnTasks (tasks (moveTask (Task.id t) targetColumn st)) targetColumn =
      inColumn targetColumn pre
      ++ Task.set_column targetColumn t :: inColumn targetColumn post).
  { rewrite Hmove, columnTasks_inColumn. simpl. apply inColumn_set_column. }
  split_and!; [exact Hts | reflexivity | exact Hpre | exact Hmove | exact Hcol |].
  intros Hpost. rewrite Hcol, Hpost. apply last_snoc.
Qed.

(** C4 on the initial board: ['task-4'] dropped on the done column. *)
Lemma C4_move_task_witness :
  "task-4" ∈ Task.id <$> tasks initialState
  ∧ ∃ (pre post : list Task.t) (t : Task.t),
      tasks initialState = pre ++ t :: post
      ∧ Task.id t = "task-4"
      ∧ Forall (λ u, Task.id u ≠ "task-4") pre
      ∧ moveTask "task-4" done initialState =
          setTasks (λ _, pre ++ Task.set_column done t :: post) initialState
      ∧ columnTasks (tasks (moveTask "task-4" done initialState)) done =
          inColumn done pre ++ Task.set_column done t :: inColumn done post
      ∧ (inColumn done post = [] →
         last (columnTasks (tasks (moveTask "task-4" done initialState)) done)
         = Some (Task.set_column done t)).
Proof.
  assert (Hin : "task-4" ∈ Task.id <$> tasks initialState).
  { vm_compute. do 3 apply list_elem_of_further. apply list_elem_of_here. }
  split; [exact Hin|].
  exact (C4_move_task "task-4" done initialState Hin).
Defined.

(** *** Task ids *)

Lemma moveTask_ids (taskId : string) (targetColumn : ColumnId) (st : AppState) :
  Task.id <$> tasks (moveTask taskId targetColumn st) = Task.id <$> tasks st.
Proof.
  unfold moveTask, setTasks, produce. simpl.
  destruct (findById taskId (tasks st)) as [[i t]|] eqn:Hfind; [|done].
  apply findById_Some in Hfind as [Hi _].
  rewrite list_fmap_insert. simpl. apply list_insert_id.
  by rewrite list_lookup_fmap, Hi.
Qed.

Lemma handleUpdateTask_ids (updatedTask : Task.t) (st : AppState) :
  Task.id <$> tasks (handleUpdateTask updatedTask st) = Task.id <$> tasks st.
Proof.
  unfold handleUpdateTask, setTasks, setEditingTask, produce. simpl.
  destruct (findById (Task.id updatedTask) (tasks st)) as [[i t]|] eqn:Hfind;
    [|done].
  apply findById_Some in Hfind as [Hi Hid].
  rewrite list_fmap_insert. apply list_insert_id.
  by rewrite list_lookup_fmap, Hi, <- Hid.
Qed.

Lemma handleDeleteTask_ids (taskId : string) (st : AppState) :
  Task.id <$> tasks (handleDeleteTask taskId st)
  `sublist_of` Task.id <$> tasks st.
Proof.
  unfold handleDeleteTask, setTasks, setEditingTask, produce. simpl.
  destruct (findById taskId (tasks st)) as [[i t]|]; [|done].
  rewrite list_fmap_delete. apply sublist_delete.
Qed.

Lemma handleAddTask_ids (now : Z) (taskData : TaskData.t) (st : AppState) :
  Task.id <$> tasks (handleAddTask now taskData st)
  = (Task.id <$> tasks st) ++ [newTaskId now].
Proof.
  unfold handleAddTask, setTasks, setShowNewTaskModal, produce. simpl.
  by rewrite fmap_app.
Qed.

Lemma newTaskId_inj (a b : Z) : newTaskId a = newTaskId b → a = b.
Proof.
  unfold newTaskId. intros H. apply (inj (String.app "task-")) in H.
  by apply (inj pretty) in H.
Qed.

Lemma handleUpdateSprint_tasks (updatedSprint : Sprint.t) (st : AppState) :
  tasks (handleUpdateSprint updatedSprint st) = tasks st.
Proof. reflexivity. Qed.

Lemma freshStep_distinctIds (st st' : AppState) :
  freshStep st st' → distinctIds st → distinctIds st'.
Proof.
  unfold distinctIds. intros Hstep Hnd. destruct Hstep as [| now d Hfresh | | |].
  - by rewrite moveTask_ids.
  - rewrite handleAddTask_ids, NoDup_app.
    split_and!; [exact Hnd | | apply NoDup_singleton].
    intros x Hx Hx'. apply list_elem_of_singleton in Hx'. by subst x.
  - by rewrite handleUpdateTask_ids.
  - eapply sublist_NoDup; [exact Hnd | apply handleDeleteTask_ids].
  - by rewrite handleUpdateSprint_tasks.
Qed.

(** Along any run of steps with fresh clock readings the ids stay pairwise
    distinct: an invariant of the machine restricted to such steps. *)
Lemma distinctIds_invariant (st st' : AppState) :
  rtc freshStep st st' → distinctIds st → distinctIds st'.
Proof.
  induction 1 as [|st st1 st2 Hstep _ IH]; [done|].
  intros Hnd. apply IH. by eapply freshStep_distinctIds.
Qed.

Lemma initialState_distinctIds : distinctIds initialState.
Proof.
  unfold distinctIds. vm_compute.
  repeat (apply NoDup_cons; split;
    [intros H; repeat (apply elem_of_cons in H as [H|H]; [discriminate|]);
     by apply elem_of_nil in H|]).
  apply NoDup_nil_2.
Qed.

(** With the clock unconstrained a step can break the invariant. *)
Lemma step_breaks_distinctIds :
  ∃ st st' : AppState, distinctIds st ∧ step st st' ∧ ¬ distinctIds st'.
Proof.
  exists (handleAddTask sameClock firstData initialState),
         (handleAddTask sameClock secondData
            (handleAddTask sameClock firstData initialState)).
  split_and!.
  - apply (freshStep_distinctIds initialState);
      [|apply initialState_distinctIds].
    constructor. vm_compute. intros H.
    repeat (apply elem_of_cons in H as [H|H]; [discriminate|]).
    by apply elem_of_nil in H.
  - constructor.
  - unfold distinctIds. rewrite handleAddTask_ids.
    intros [_ [H _]]%NoDup_app.
    apply (H (newTaskId sameClock)); [|apply list_elem_of_here].
    rewrite handleAddTask_ids. apply elem_of_app. right. apply list_elem_of_here.
Qed.

Lemma handleDeleteTask_unknown (taskId : string) (st : AppState) :
  taskId ∉ Task.id <$> tasks st →
  handleDeleteTask taskId st = setEditingTask None st.
Proof.
  intros Hnot. unfold handleDeleteTask, setTasks, setEditingTask, produce.
  simpl. rewrite (findById_None taskId (tasks st) Hnot). by destruct st.
Qed.

Lemma handleDeleteTask_split (pre post : list Task.t) (t : Task.t)
    (st : AppState) :
  tasks st = pre ++ t :: post →
  Forall (λ u, Task.id u ≠ Task.id t) pre →
  tasks (handleDeleteTask (Task.id t) st) = pre ++ post.
Proof.
  intros Hts Hpre. unfold handleDeleteTask, setTasks, setEditingTask, produce.
  simpl. rewrite Hts, (findById_first (Task.id t) pre post t eq_refl Hpre).
  apply delete_middle.
Qed.

Lemma handleDeleteTask_gone (taskId : string) (st : AppState) :
  distinctIds st → taskId ∉ Task.id <$> tasks (handleDeleteTask taskId st).
Proof.
  unfold distinctIds. intros Hnd.
  destruct (decide (taskId ∈ Task.id <$> tasks st)) as [Hin|Hnot].
  - destruct (split_at_first_id taskId (tasks st) Hin)
      as (pre & post & t & Hts & <- & Hpre).
    rewrite (handleDeleteTask_split pre post t st Hts Hpre).
    rewrite Hts, fmap_app, fmap_cons in Hnd.
    apply NoDup_app in Hnd as (_ & _ & Hnd2).
    apply NoDup_cons in Hnd2 as [Hpost _].
    rewrite fmap_app. intros [Hin'|Hin']%elem_of_app; [|done].
    apply list_elem_of_fmap in Hin' as (u & Hid & Hu).
    rewrite Forall_forall in Hpre. by apply (Hpre u Hu).
  - unfold handleDeleteTask, setTasks, setEditingTask, produce. simpl.
    by rewrite (findById_None taskId (tasks st) Hnot).
Qed.

(** Deleting twice is deleting once: with distinct ids the second call finds
    nothing to remove. *)
Lemma handleDeleteTask_twice (taskId : string) (st : AppState) :
  distinctIds st →
  handleDeleteTask taskId (handleDeleteTask taskId st)
  = handleDeleteTask taskId st.
Proof.
  intros Hnd.
  rewrite (handleDeleteTask_unknown taskId (handleDeleteTask taskId st))
    by (by apply handleDeleteTask_gone).
  reflexivity.
Qed.

(** C9, as stated, fails: the id of a new task is the clock reading, and two
    tasks added at the same reading get the same id.  The first addition to
    the initial board keeps the ids distinct, the second one does not. *)
Lemma C9_same_clock_duplicate_id :
  let st1 := handleAddTask sameClock firstData initialState in
  let st2 := handleAddTask sameClock secondData st1 in
  NoDup (Task.id <$> tasks st1) ∧ ¬ NoDup (Task.id <$> tasks st2).
Proof.
  split.
  - vm_compute. repeat (apply NoDup_cons; split;
      [intros H; repeat (apply elem_of_cons in H as [H|H]; [discriminate|]);
       by apply elem_of_nil in H|]).
    apply NoDup_nil_2.
  - rewrite handleAddTask_ids. intros [_ [H _]]%NoDup_app.
    apply (H (newTaskId sameClock)); [|apply list_elem_of_here].
    rewrite handleAddTask_ids. apply elem_of_app. right. apply list_elem_of_here.
Qed.

(** C9, amended: from a collection with pairwise distinct ids, [moveTask] and
    [handleUpdateTask] keep the ids as they are and [handleDeleteTask] removes
    one, so the ids stay distinct; [handleAddTask] appends the id
    [task-<clock reading>] without looking at the collection, so the ids stay
    distinct exactly when that id is not yet there.  Ids made at different
    clock readings differ, and the ids stay distinct along every run of steps
    whose clock readings are fresh in this sense. *)
Theorem C9_id_uniqueness (st : AppState) (taskId : string)
    (targetColumn : ColumnId) (updatedTask : Task.t) (now : Z)
    (taskData : TaskData.t) :
  NoDup (Task.id <$> tasks st) →
  NoDup (Task.id <$> tasks (moveTask taskId targetColumn st))
  ∧ NoDup (Task.id <$> tasks (handleUpdateTask updatedTask st))
  ∧ NoDup (Task.id <$> tasks (handleDeleteTask taskId st))
  ∧ (NoDup (Task.id <$> tasks (handleAddTask now taskData st))
     ↔ newTaskId now ∉ Task.id <$> tasks st)
  ∧ (∀ now' : Z, now' ≠ now → newTaskId now' ≠ newTaskId now)
  ∧ (∀ st' : AppState, rtc freshStep st st' → distinctIds st').
Proof.
  intros Hnd. split_and!.
  - by rewrite moveTask_ids.
  - by rewrite handleUpdateTask_ids.
  - eapply sublist_NoDup; [exact Hnd | apply handleDeleteTask_ids].
  - rewrite handleAddTask_ids, NoDup_app. split.
    + intros (_ & H & _) Hin. apply (H _ Hin), list_elem_of_here.
    + intros Hnot. split_and!; [exact Hnd | | apply NoDup_singleton].
      intros x Hx Hx'. apply list_elem_of_singleton in Hx'. by subst x.
  - intros now' Hne Heq. by apply Hne, newTaskId_inj.
  - intros st' Hrun. by apply (distinctIds_invariant st st' Hrun).
Qed.

(** C9 on the initial board. *)
Lemma C9_id_uniqueness_witness :
  NoDup (Task.id <$> tasks initialState)
  ∧ NoDup (Task.id <$> tasks (moveTask "task-3" done initialState))
  ∧ NoDup (Task.id <$> tasks (handleDeleteTask "task-3" initialState)).
Proof.
  assert (Hnd : NoDup (Task.id <$> tasks initialState)).
  { vm_compute. repeat (apply NoDup_cons; split;
      [intros H; repeat (apply elem_of_cons in H as [H|H]; [discriminate|]);
       by apply elem_of_nil in H|]).
    apply NoDup_nil_2. }
  destruct (C9_id_uniqueness initialState "task-3" done
              (Task.mk "task-3" done "Create Database Schema" "Done." (Some 5)
                       (Some []))
              sameClock firstData Hnd) as (H1 & _ & H3 & _).
  split_and!; assumption.
Defined.

(** ** AddTask through the form *)

Lemma allWhiteSpace_trimStart (s : string) :
  allWhiteSpace (trimStart s) = allWhiteSpace s.
Proof.
  induction s as [|c s IH]; simpl; [done|].
  destruct (isWhiteSpace c) eqn:Hc; simpl; [exact IH | by rewrite Hc].
Qed.

Lemma trimStart_empty (s : string) :
  not_string (trimStart s) = allWhiteSpace s.
Proof.
  induction s as [|c s IH]; simpl; [done|].
  destruct (isWhiteSpace c); simpl; [exact IH | done].
Qed.

Lemma allWhiteSpace_rev_app (s1 s2 : string) :
  allWhiteSpace (String.rev_app s1 s2) = allWhiteSpace s1 && allWhiteSpace s2.
Proof.
  revert s2. induction s1 as [|c s1 IH]; intros s2; simpl; [done|].
  rewrite IH. simpl. destruct (isWhiteSpace c), (allWhiteSpace s1); done.
Qed.

Lemma allWhiteSpace_rev (s : string) :
  allWhiteSpace (String.rev s) = allWhiteSpace s.
Proof. unfold String.rev. rewrite allWhiteSpace_rev_app. simpl. apply andb_true_r. Qed.

Lemma not_string_rev_app (s1 s2 : string) :
  not_string (String.rev_app s1 s2) = not_string s1 && not_string s2.
Proof.
  revert s2. induction s1 as [|c s1 IH]; intros s2; simpl; [done|].
  rewrite IH. simpl. apply andb_false_r.
Qed.

Lemma not_string_rev (s : string) : not_string (String.rev s) = not_string s.
Proof. unfold String.rev. rewrite not_string_rev_app. simpl. apply andb_true_r. Qed.

(** [!s.trim()] holds exactly for the strings made of white space only. *)
Lemma not_string_trim (s : string) : not_string (trim s) = allWhiteSpace s.
Proof.
  unfold trim, trimEnd.
  by rewrite not_string_rev, trimStart_empty, allWhiteSpace_rev,
    allWhiteSpace_trimStart.
Qed.

(** C6, as stated, fails: a title of one space is not empty, and yet the task
    is not added. *)
Lemma C6_blank_title_rejected :
  form_title blankTitleForm ≠ EmptyString
  ∧ form_description blankTitleForm ≠ EmptyString
  ∧ tasks (snd (AddTask sameClock blankTitleForm initialState))
    = tasks initialState.
Proof. split_and!; [discriminate | discriminate | by vm_compute]. Qed.

(** C6, amended: the form rejects the task, with an alert and without any
    change of the state, exactly when the title or the description has
    nothing but white space (in particular when one of them is empty);
    otherwise [handleAddTask] runs and appends one task, in the backlog, with
    the id made from the clock, the fields of the form and no attachment.
    The test is in the form: [handleAddTask] appends whatever it is given. *)
Theorem C6_add_task (now : Z) (form : NewTaskForm) (st : AppState) :
  AddTask now form st =
    (if allWhiteSpace (form_title form) || allWhiteSpace (form_description form)
     then (Some "Please fill in the title and description.", st)
     else (None,
           handleAddTask now
             (TaskData.mk (form_title form) (form_description form)
                          (form_points form)) st))
  ∧ tasks (snd (AddTask now form st)) =
      (if allWhiteSpace (form_title form)
          || allWhiteSpace (form_description form)
       then tasks st
       else tasks st
            ++ [Task.mk (newTaskId now) backlog (form_title form)
                        (form_description form) (form_points form) (Some [])])
  ∧ (∀ description points,
       snd (AddTask now (mkNewTaskForm EmptyString description points) st) = st)
  ∧ (∀ title points,
       snd (AddTask now (mkNewTaskForm title EmptyString points) st) = st)
  ∧ (∀ taskData,
       tasks (handleAddTask now taskData st) =
         tasks st
         ++ [Task.mk (newTaskId now) backlog (TaskData.title taskData)
                     (TaskData.description taskData)
                     (TaskData.points taskData) (Some [])]).
Proof.
  assert (Heq : AddTask now form st =
    (if allWhiteSpace (form_title form) || allWhiteSpace (form_description form)
     then (Some "Please fill in the title and description.", st)
     else (None,
           handleAddTask now
             (TaskData.mk (form_title form) (form_description form)
                          (form_points form)) st))).
  { unfold AddTask, NewTaskModal_handleSubmit. by rewrite !not_string_trim. }
  split_and!.
  - exact Heq.
  - rewrite Heq.
    by destruct (allWhiteSpace (form_title form)
                 || allWhiteSpace (form_description form)).
  - intros description points. reflexivity.
  - intros title points. unfold AddTask, NewTaskModal_handleSubmit. simpl.
    by rewrite orb_true_r.
  - intros taskData. reflexivity.
Qed.

(** A well-filled form adds its task at the end of the backlog. *)
Example AddTask_filledForm :
  fst (AddTask sameClock filledForm initialState) = None
  ∧ Task.id <$> tasks (snd (AddTask sameClock filledForm initialState))
    = ["task-1"; "task-2"; "task-3"; "task-4"; "task-6"; "task-5";
       "task-1721433600000"]
  ∧ Task.id <$> columnTasks
                  (tasks (snd (AddTask sameClock filledForm initialState)))
                  backlog
    = ["task-1"; "task-2"; "task-1721433600000"].
Proof. by vm_compute. Qed.

(** ** Attachment analysis *)

(** C10: with no attachment, [analyzeTaskAttachments] settles at once with
    the fixed text, whatever the title, the API key and the cached client: no
    rejection, and no call of the gateway whatever it would answer. *)
Theorem C10_no_attachments (API_KEY : option string)
    (ai : option GeminiService.GoogleGenAI) (taskTitle : string) :
  GeminiService.analyzeTaskAttachments API_KEY ai taskTitle []
  = GeminiService.Resolve "No attachments to analyze."
  ∧ ∀ answer : GeminiService.Error + string,
      GeminiService.gatewayCalls answer
        (GeminiService.analyzeTaskAttachments API_KEY ai taskTitle []) = 0%nat.
Proof. split; [reflexivity | intros answer; reflexivity]. Qed.

(** With an attachment and an API key the gateway is called once, with the
    prompt and the payload after the comma; what it answers is passed on. *)
Example analyze_notes :
  ∃ next,
    GeminiService.analyzeTaskAttachments (Some "key") None "Docs"
      [notesAttachment]
    = GeminiService.GenerateContent (GeminiService.mkGoogleGenAI "key")
        (GeminiService.mkRequest "gemini-2.5-flash"
           [GeminiService.TextPart (GeminiService.analyzePrompt "Docs");
            GeminiService.InlineDataPart "SGVsbG8=" "text/plain"])
        next
    ∧ next (inr "Summary") = GeminiService.Resolve "Summary"
    ∧ GeminiService.gatewayCalls (inr "Summary")
        (GeminiService.analyzeTaskAttachments (Some "key") None "Docs"
           [notesAttachment]) = 1%nat.
Proof. eexists. split_and!; reflexivity. Qed.

(** Data without the data URI comma is refused before any call. *)
Example analyze_broken :
  GeminiService.analyzeTaskAttachments (Some "key") None "Docs"
    [notesAttachment; brokenAttachment]
  = GeminiService.Reject
      (GeminiService.mkError "Invalid base64 data for file broken.bin").
Proof. reflexivity. Qed.

(** * Properties of the rest of the code *)

(** ** The board as rendered *)

Lemma kanbanColumns_concat (tasks : list Task.t) :
  concat (snd <$> kanbanColumns tasks) =
    inColumn backlog tasks ++ inColumn todo tasks
    ++ inColumn in_progress tasks ++ inColumn done tasks.
Proof.
  unfold kanbanColumns, COLUMNS. simpl.
  rewrite !columnTasks_inColumn. by rewrite app_nil_r.
Qed.

Lemma shown_tasks_perm (tasks : list Task.t) :
  inColumn backlog tasks ++ inColumn todo tasks
  ++ inColumn in_progress tasks ++ inColumn done tasks
  ≡ₚ filter (λ t, Task.column t ≠ blocked) tasks.
Proof.
  induction tasks as [|t tasks IH]; [done|].
  rewrite !inColumn_cons, filter_cons.
  destruct (Task.column t) eqn:Hc; simpl;
    repeat (rewrite decide_False by done);
    repeat (rewrite decide_True by done);
    rewrite <- ?Permutation_middle; by rewrite ?IH.
Qed.

(** X1: the board shows the columns of [COLUMNS], which has no 'blocked'
    entry: the tasks shown, all columns together, are the tasks whose column is
    not 'blocked', each as often as it is in the collection; a blocked task is
    in no column of the board. *)
Theorem X1_kanban_columns_shown (tasks : list Task.t) :
  concat (snd <$> kanbanColumns tasks)
    ≡ₚ filter (λ t, Task.column t ≠ blocked) tasks
  ∧ (∀ t, t ∈ concat (snd <$> kanbanColumns tasks)
          ↔ t ∈ tasks ∧ Task.column t ≠ blocked)
  ∧ (length (concat (snd <$> kanbanColumns tasks))
     + length (inColumn blocked tasks) = length tasks)%nat.
Proof.
  rewrite kanbanColumns_concat.
  pose proof (shown_tasks_perm tasks) as Hperm.
  split_and!.
  - exact Hperm.
  - intros t. rewrite Hperm, list_elem_of_filter. tauto.
  - rewrite Hperm. unfold inColumn.
    induction tasks as [|t tasks IH]; [done|].
    rewrite !filter_cons.
    destruct (decide (Task.column t = blocked)) as [Hb|Hb].
    + rewrite decide_False by (by rewrite Hb; intros []). simpl.
      rewrite Nat.add_succ_r. f_equal. apply IH, shown_tasks_perm.
    + rewrite decide_True by done. simpl. f_equal. apply IH, shown_tasks_perm.
Qed.

(** ** How the mutators compose *)

Lemma handleUpdateTask_split (pre post : list Task.t) (t updatedTask : Task.t)
    (st : AppState) :
  tasks st = pre ++ t :: post →
  Task.id t = Task.id updatedTask →
  Forall (λ u, Task.id u ≠ Task.id updatedTask) pre →
  tasks (handleUpdateTask updatedTask st) = pre ++ updatedTask :: post.
Proof.
  intros Hts Hid Hpre. unfold handleUpdateTask, setTasks, setEditingTask, produce.
  simpl. rewrite Hts, (findById_first _ pre post t Hid Hpre).
  replace (length pre) with (length pre + 0)%nat by lia.
  by rewrite insert_app_r.
Qed.

Lemma handleUpdateTask_unknown (updatedTask : Task.t) (st : AppState) :
  Task.id updatedTask ∉ Task.id <$> tasks st →
  tasks (handleUpdateTask updatedTask st) = tasks st.
Proof.
  intros Hnot. unfold handleUpdateTask, setTasks, setEditingTask, produce.
  simpl. by rewrite (findById_None _ (tasks st) Hnot).
Qed.

Lemma handleUpdateTask_state (updatedTask : Task.t) (st : AppState) :
  handleUpdateTask updatedTask st =
    mkAppState (tasks (handleUpdateTask updatedTask st)) (sprint st)
               (showNewTaskModal st) None (showSprintModal st).
Proof. reflexivity. Qed.

Lemma moveTask_state (taskId : string) (c : ColumnId) (st : AppState) :
  moveTask taskId c st =
    mkAppState (tasks (moveTask taskId c st)) (sprint st)
               (showNewTaskModal st) (editingTask st) (showSprintModal st).
Proof. reflexivity. Qed.

Lemma moveTask_unknown (taskId : string) (c : ColumnId) (st : AppState) :
  taskId ∉ Task.id <$> tasks st → tasks (moveTask taskId c st) = tasks st.
Proof.
  intros Hnot. unfold moveTask, setTasks, produce. simpl.
  by rewrite (findById_None _ (tasks st) Hnot).
Qed.

(** X2: [handleDeleteTask] with an id of the collection removes the first
    task that has it and nothing else: the tasks before and after it stay, in
    their order, and the collection is one shorter. *)
Theorem X2_delete_removes_first (taskId : string) (st : AppState) :
  taskId ∈ Task.id <$> tasks st →
  ∃ (pre post : list Task.t) (t : Task.t),
    tasks st = pre ++ t :: post
    ∧ Task.id t = taskId
    ∧ Forall (λ u, Task.id u ≠ taskId) pre
    ∧ tasks (handleDeleteTask taskId st) = pre ++ post
    ∧ S (length (tasks (handleDeleteTask taskId st))) = length (tasks st).
Proof.
  intros Hin.
  destruct (split_at_first_id taskId (tasks st) Hin)
    as (pre & post & t & Hts & <- & Hpre).
  exists pre, post, t.
  pose proof (handleDeleteTask_split pre post t st Hts Hpre) as Hdel.
  split_and!; [done..|].
  rewrite Hdel, Hts, !length_app. simpl. lia.
Qed.

Lemma X2_delete_removes_first_witness :
  "task-4" ∈ Task.id <$> tasks initialState
  ∧ ∃ (pre post : list Task.t) (t : Task.t),
      tasks initialState = pre ++ t :: post
      ∧ Task.id t = "task-4"
      ∧ Forall (λ u, Task.id u ≠ "task-4") pre
      ∧ tasks (handleDeleteTask "task-4" initialState) = pre ++ post
      ∧ S (length (tasks (handleDeleteTask "task-4" initialState)))
        = length (tasks initialState).
Proof.
  assert (Hin : "task-4" ∈ Task.id <$> tasks initialState).
  { vm_compute. do 3 apply list_elem_of_further. apply list_elem_of_here. }
  split; [exact Hin|].
  exact (X2_delete_removes_first "task-4" initialState Hin).
Defined.

(** X3: when the ids are pairwise distinct, the id is gone after
    [handleDeleteTask], and a second call with it changes nothing. *)
Theorem X3_delete_twice (taskId : string) (st : AppState) :
  distinctIds st →
  (taskId ∉ Task.id <$> tasks (handleDeleteTask taskId st))
  ∧ handleDeleteTask taskId (handleDeleteTask taskId st)
    = handleDeleteTask taskId st.
Proof.
  intros Hnd. split.
  - by apply handleDeleteTask_gone.
  - by apply handleDeleteTask_twice.
Qed.

Lemma X3_delete_twice_witness :
  distinctIds initialState
  ∧ ("task-3" ∉ Task.id <$> tasks (handleDeleteTask "task-3" initialState))
  ∧ handleDeleteTask "task-3" (handleDeleteTask "task-3" initialState)
    = handleDeleteTask "task-3" initialState.
Proof.
  split; [apply initialState_distinctIds|].
  exact (X3_delete_twice "task-3" initialState initialState_distinctIds).
Defined.

(** X4: of two [handleUpdateTask] calls for the same id the last one wins:
    what the first wrote is replaced, in the place of the first task with that
    id, and the result is that of the second call alone. *)
Theorem X4_update_last_wins (t1 t2 : Task.t) (st : AppState) :
  Task.id t1 = Task.id t2 →
  handleUpdateTask t2 (handleUpdateTask t1 st) = handleUpdateTask t2 st.
Proof.
  intros Hid.
  rewrite (handleUpdateTask_state t2 (handleUpdateTask t1 st)),
    (handleUpdateTask_state t2 st).
  f_equal.
  destruct (decide (Task.id t2 ∈ Task.id <$> tasks st)) as [Hin|Hnot].
  - destruct (split_at_first_id _ (tasks st) Hin)
      as (pre & post & t & Hts & Ht & Hpre).
    assert (Hpre1 : Forall (λ u, Task.id u ≠ Task.id t1) pre)
      by (by rewrite Hid).
    assert (H1 : tasks (handleUpdateTask t1 st) = pre ++ t1 :: post).
    { apply (handleUpdateTask_split pre post t); [done| congruence | done]. }
    rewrite (handleUpdateTask_split pre post t1 t2 _ H1 Hid Hpre).
    by rewrite (handleUpdateTask_split pre post t t2 st Hts Ht Hpre).
  - assert (H1 : tasks (handleUpdateTask t1 st) = tasks st).
    { apply handleUpdateTask_unknown. by rewrite Hid. }
    rewrite (handleUpdateTask_unknown t2 (handleUpdateTask t1 st))
      by (by rewrite H1).
    by rewrite H1, (handleUpdateTask_unknown t2 st).
Qed.

Lemma X4_update_last_wins_witness :
  handleUpdateTask
    (Task.mk "task-3" done "Schema" "Done now" (Some 5) None)
    (handleUpdateTask
       (Task.mk "task-3" blocked "Schema" "Waiting" (Some 8) None)
       initialState)
  = handleUpdateTask
      (Task.mk "task-3" done "Schema" "Done now" (Some 5) None) initialState.
Proof.
  exact (X4_update_last_wins
           (Task.mk "task-3" blocked "Schema" "Waiting" (Some 8) None)
           (Task.mk "task-3" done "Schema" "Done now" (Some 5) None)
           initialState eq_refl).
Defined.

(** X5: of two [moveTask] calls for the same id the last one wins; dropping
    a task twice on the same column is dropping it once. *)
Theorem X5_move_last_wins (taskId : string) (c1 c2 : ColumnId)
    (st : AppState) :
  moveTask taskId c2 (moveTask taskId c1 st) = moveTask taskId c2 st.
Proof.
  rewrite (moveTask_state taskId c2 (moveTask taskId c1 st)),
    (moveTask_state taskId c2 st).
  f_equal.
  destruct (decide (taskId ∈ Task.id <$> tasks st)) as [Hin|Hnot].
  - destruct (split_at_first_id _ (tasks st) Hin)
      as (pre & post & t & Hts & <- & Hpre).
    pose proof (moveTask_split pre post t c1 st Hts Hpre) as H1.
    assert (Hts1 : tasks (moveTask (Task.id t) c1 st)
                   = pre ++ Task.set_column c1 t :: post) by (by rewrite H1).
    pose proof (moveTask_split pre post (Task.set_column c1 t) c2 _ Hts1 Hpre)
      as H2.
    change (Task.id (Task.set_column c1 t)) with (Task.id t) in H2.
    by rewrite H2, (moveTask_split pre post t c2 st Hts Hpre).
  - rewrite (moveTask_unknown taskId c2 (moveTask taskId c1 st))
      by (by rewrite moveTask_unknown).
    by rewrite !moveTask_unknown.
Qed.

(** ** What the burndown depends on *)

Lemma burndownAlike_refl (t : Task.t) : burndownAlike t t.
Proof. by unfold burndownAlike. Qed.

Lemma Forall2_burndownAlike_refl (l : list Task.t) :
  Forall2 burndownAlike l l.
Proof. induction l; constructor; [apply burndownAlike_refl | done]. Qed.

Lemma foldl_add_filter_alike (P : Task.t → Prop) `{!∀ t, Decision (P t)}
    (l l' : list Task.t) :
  Forall2 (λ t t', (P t ↔ P t') ∧ pointsZ t = pointsZ t') l l' →
  ∀ acc : Q,
    foldl (λ sum task, Number.add sum (pointsOr0 task)) acc (filter P l)
    = foldl (λ sum task, Number.add sum (pointsOr0 task)) acc (filter P l').
Proof.
  induction 1 as [|t t' l l' [HP Hpts] _ IH]; intros acc; [done|].
  rewrite !filter_cons.
  destruct (decide (P t)) as [Ht|Ht].
  - rewrite decide_True by tauto. simpl.
    rewrite !pointsOr0_Z, Hpts. apply IH.
  - rewrite decide_False by tauto. apply IH.
Qed.

Lemma totalPoints_alike (l l' : list Task.t) :
  Forall2 burndownAlike l l' → totalPoints l = totalPoints l'.
Proof.
  intros H. unfold totalPoints, sumPoints. apply foldl_add_filter_alike.
  eapply Forall2_impl; [exact H|]. intros t t' (Hb & _ & Hp).
  split; [tauto | exact Hp].
Qed.

Lemma completedPoints_alike (l l' : list Task.t) :
  Forall2 burndownAlike l l' → completedPoints l = completedPoints l'.
Proof.
  intros H. unfold completedPoints, sumPoints. apply foldl_add_filter_alike.
  eapply Forall2_impl; [exact H|]. intros t t' (_ & Hd & Hp).
  split; [tauto | exact Hp].
Qed.

Lemma burndownData_alike (l l' : list Task.t) (s : Sprint.t) :
  Forall2 burndownAlike l l' → burndownData l s = burndownData l' s.
Proof.
  intros H. rewrite !burndownData_eq.
  rewrite (totalPoints_alike l l' H). f_equal.
  apply list_fmap_ext. intros _ i _. unfold burndownEntry.
  by rewrite (completedPoints_alike l l' H).
Qed.

Lemma moveTask_alike (taskId : string) (c : ColumnId) (st : AppState) :
  c ≠ backlog → c ≠ done →
  (∀ t, t ∈ tasks st → Task.id t = taskId →
        Task.column t ≠ backlog ∧ Task.column t ≠ done) →
  Forall2 burndownAlike (tasks (moveTask taskId c st)) (tasks st).
Proof.
  intros Hc1 Hc2 Hworking.
  destruct (decide (taskId ∈ Task.id <$> tasks st)) as [Hin|Hnot].
  - destruct (split_at_first_id _ (tasks st) Hin)
      as (pre & post & t & Hts & <- & Hpre).
    rewrite (moveTask_split pre post t c st Hts Hpre). simpl. rewrite Hts.
    apply Forall2_app; [apply Forall2_burndownAlike_refl|].
    constructor; [|apply Forall2_burndownAlike_refl].
    destruct (Hworking t) as [Hb Hd]; [|done|].
    { rewrite Hts. apply elem_of_app. right. apply list_elem_of_here. }
    unfold burndownAlike. simpl. tauto.
  - rewrite moveTask_unknown by done. apply Forall2_burndownAlike_refl.
Qed.

(** X6: only the moves into or out of the backlog and the done column show in
    the burndown: when the task dropped is neither in the backlog nor done and
    the target column is neither, the burndown series stays the same. *)
Theorem X6_move_between_working_columns (taskId : string) (c : ColumnId)
    (st : AppState) :
  c ≠ backlog → c ≠ done →
  (∀ t, t ∈ tasks st → Task.id t = taskId →
        Task.column t ≠ backlog ∧ Task.column t ≠ done) →
  burndownData (tasks (moveTask taskId c st)) (sprint (moveTask taskId c st))
  = burndownData (tasks st) (sprint st).
Proof.
  intros Hc1 Hc2 Hworking. apply burndownData_alike.
  by apply moveTask_alike.
Qed.

Lemma X6_move_between_working_columns_witness :
  burndownData (tasks (moveTask "task-3" in_progress initialState))
               (sprint (moveTask "task-3" in_progress initialState))
  = burndownData (tasks initialState) (sprint initialState).
Proof.
  apply (X6_move_between_working_columns "task-3" in_progress initialState);
    [discriminate | discriminate |].
  intros t Ht Hid. vm_compute in Ht.
  repeat (apply elem_of_cons in Ht as [->|Ht];
          [first [discriminate Hid | split; discriminate]|]).
  by apply elem_of_nil in Ht.
Defined.

Lemma filter_backlog_nil (P : Task.t → Prop) `{!∀ t, Decision (P t)}
    (news : list Task.t) :
  Forall (λ t, ¬ P t) news → filter P news = [].
Proof.
  induction 1 as [|t l Ht _ IH]; [done|].
  rewrite filter_cons, decide_False by done. exact IH.
Qed.

(** Tasks put at the end in the backlog change neither the burndown nor any
    other column. *)
Lemma append_backlog_burndown (l news : list Task.t) (s : Sprint.t) :
  Forall (λ t, Task.column t = backlog) news →
  burndownData (l ++ news) s = burndownData l s.
Proof.
  intros Hnews.
  assert (Htotal : totalPoints (l ++ news) = totalPoints l).
  { unfold totalPoints. rewrite filter_app, (filter_backlog_nil _ news).
    - by rewrite app_nil_r.
    - eapply Forall_impl; [exact Hnews|]. intros t -> H. by apply H. }
  assert (Hdone : completedPoints (l ++ news) = completedPoints l).
  { unfold completedPoints. rewrite filter_app, (filter_backlog_nil _ news).
    - by rewrite app_nil_r.
    - eapply Forall_impl; [exact Hnews|]. by intros t -> H. }
  rewrite !burndownData_eq, Htotal. f_equal.
  apply list_fmap_ext. intros _ i _. unfold burndownEntry. by rewrite Hdone.
Qed.

Lemma append_backlog_columns (l news : list Task.t) (c : ColumnId) :
  Forall (λ t, Task.column t = backlog) news →
  columnTasks (l ++ news) c =
    if decide (c = backlog) then columnTasks l c ++ news else columnTasks l c.
Proof.
  intros Hnews. rewrite !columnTasks_inColumn, inColumn_app.
  destruct (decide (c = backlog)) as [->|Hc].
  - f_equal. unfold inColumn. induction Hnews as [|t news Ht _ IH]; [done|].
    rewrite filter_cons, decide_True by done. by rewrite IH.
  - unfold inColumn at 2. rewrite (filter_backlog_nil _ news).
    + by rewrite app_nil_r.
    + eapply Forall_impl; [exact Hnews|]. intros t -> H. by apply Hc.
Qed.

(** X7: a task added with [handleAddTask] goes to the end of the backlog
    column; the other columns and the whole burndown series stay as they
    were, whatever the points of the new task. *)
Theorem X7_add_task_backlog_only (now : Z) (taskData : TaskData.t)
    (st : AppState) (c : ColumnId) :
  burndownData (tasks (handleAddTask now taskData st))
               (sprint (handleAddTask now taskData st))
  = burndownData (tasks st) (sprint st)
  ∧ columnTasks (tasks (handleAddTask now taskData st)) c =
      if decide (c = backlog)
      then columnTasks (tasks st) c
           ++ [Task.mk (newTaskId now) backlog (TaskData.title taskData)
                       (TaskData.description taskData)
                       (TaskData.points taskData) (Some [])]
      else columnTasks (tasks st) c.
Proof.
  unfold handleAddTask, setTasks, setShowNewTaskModal, produce. simpl. split.
  - apply append_backlog_burndown. by repeat constructor.
  - apply append_backlog_columns. by repeat constructor.
Qed.

(** ** More on the burndown *)

(** X8: for a sprint whose dates are a whole number [k] of days apart (as
    the dates that the sprint dialog builds, at midnight UTC), the duration is
    [k] days, also when the dates are in the wrong order. *)
Theorem X8_whole_days_duration (s : Sprint.t) (k : Z) :
  0 ≤ k → k * 86400000 ≤ 2 ^ 53 →
  Sprint.endDate s = Sprint.startDate s + k * 86400000 →
  sprintDurationDays s = k ∧ sprintDurationDays (swapDates s) = k.
Proof.
  intros Hk Hb Hend.
  assert (Hs : sprintDurationDays s = k).
  { unfold sprintDurationDays, Math_ceil, Math_abs.
    assert (H1 : (Qabs (Number.sub (inject_Z (Sprint.endDate s))
                                   (inject_Z (Sprint.startDate s)))
                  == inject_Z (k * 86400000))%Q).
    { unfold Number.sub.
      rewrite (rnd_compat
                 (inject_Z (Sprint.endDate s) - inject_Z (Sprint.startDate s))%Q
                 (inject_Z (k * 86400000))).
      - rewrite rnd_Z by lia. apply Qabs_pos.
        change 0%Q with (inject_Z 0). rewrite <- Zle_Qle. lia.
      - rewrite Hend, inject_Z_plus. ring. }
    assert (H2 : (Number.div
                    (Qabs (Number.sub (inject_Z (Sprint.endDate s))
                                      (inject_Z (Sprint.startDate s))))
                    msPerDay == inject_Z k)%Q).
    { unfold Number.div. rewrite <- (rnd_Z k) by lia. apply rnd_compat.
      unfold Qdiv. rewrite H1, inject_Z_mult. unfold msPerDay.
      change (inject_Z 86400000) with (inject_Z (1000 * 60 * 60 * 24)).
      field. discriminate. }
    rewrite (Qceiling_comp _ _ H2). apply Qceiling_Z. }
  split; [exact Hs | by rewrite sprintDurationDays_swap].
Qed.

Lemma X8_whole_days_duration_witness :
  sprintDurationDays initialSprint = 14
  ∧ sprintDurationDays (swapDates initialSprint) = 14.
Proof.
  apply (X8_whole_days_duration initialSprint 14); [lia | by vm_compute | reflexivity].
Defined.

(** X10: for points that are not negative and a total below [2^53], no
    [remaining] value of the series is negative or above the total of the
    sprint: the chart never shows more work left than there is. *)
Theorem X10_remaining_bounds (tasks : list Task.t) (s : Sprint.t) (k : nat)
    (p : BurndownPoint) :
  Forall (λ t, 0 ≤ pointsZ t) tasks →
  totalPointsZ tasks ≤ 2 ^ 53 →
  burndownData tasks s !! k = Some p →
  (0 <= remaining p <= totalPoints tasks)%Q.
Proof.
  intros Hnn Hb Hk.
  destruct (totalPoints_exact tasks Hnn Hb) as [HT HT0].
  destruct (completedPointsZ_le_total tasks Hnn) as [HC0 HCT].
  assert (H0 : (0 <= inject_Z (totalPointsZ tasks))%Q).
  { change 0%Q with (inject_Z 0). by rewrite <- Zle_Qle. }
  destruct k as [|k].
  - rewrite burndownData_lookup_0 in Hk. injection Hk as <-. simpl. lra.
  - apply burndownData_lookup_S in Hk as [_ ->]. simpl remaining.
    rewrite (remaining_exact tasks Hnn Hb), HT. split.
    + change 0%Q with (inject_Z 0). rewrite <- Zle_Qle. lia.
    + rewrite <- Zle_Qle. lia.
Qed.

Lemma X10_remaining_bounds_witness :
  ∃ p : BurndownPoint,
    burndownData initialTasks initialSprint !! 3%nat = Some p
    ∧ (0 <= remaining p <= totalPoints initialTasks)%Q.
Proof.
  eexists. split; [by vm_compute|].
  apply (X10_remaining_bounds initialTasks initialSprint 3).
  - repeat constructor; vm_compute; discriminate.
  - vm_compute. discriminate.
  - by vm_compute.
Defined.

(** *** The end of the ideal line *)

(** Rounding moves a value by at most half a unit in the last place. *)
Lemma rnd_error (x : Q) :
  ¬ (x == 0)%Q →
  (x - Number.pow2 (Number.ulp_exp x) * (1 # 2) <= Number.rnd x
   ∧ Number.rnd x <= x + Number.pow2 (Number.ulp_exp x) * (1 # 2))%Q.
Proof.
  intros Hx. rewrite (rnd_nonzero x Hx).
  set (P := Number.pow2 (Number.ulp_exp x)).
  assert (HP : (0 < P)%Q) by apply pow2_pos.
  set (y := (x / P)%Q).
  assert (Hxy : (x == y * P)%Q).
  { unfold y. field. intros H. rewrite H in HP. discriminate. }
  pose proof (rne_spec y) as Hspec. unfold Number.is_rne in Hspec.
  set (n := inject_Z (Number.rne y)) in *.
  assert (Hlo : (n - (1 # 2) <= y)%Q) by (destruct Hspec as [[? ?]|[[?|?] _]]; lra).
  assert (Hhi : (y <= n + (1 # 2))%Q) by (destruct Hspec as [[? ?]|[[?|?] _]]; lra).
  apply (Qmult_le_compat_r _ _ P) in Hlo; [|lra].
  apply (Qmult_le_compat_r _ _ P) in Hhi; [|lra].
  rewrite <- Hxy in Hlo, Hhi.
  split; lra.
Qed.

Lemma ilog2_ge (x : Q) (e : Z) :
  (Number.pow2 e <= x)%Q → e ≤ Number.ilog2 x.
Proof.
  intros H.
  assert (Hx : (0 < x)%Q) by (eapply Qlt_le_trans; [apply pow2_pos | exact H]).
  destruct (ilog2_spec x Hx) as [_ H2].
  assert (Hlt : (Number.pow2 e < Number.pow2 (Number.ilog2 x + 1))%Q)
    by (eapply Qle_lt_trans; eassumption).
  apply Qpower_lt_compat_l_inv in Hlt; [lia | reflexivity].
Qed.

(** In the normal range the relative error is at most [2^-53]. *)
Lemma rnd_relative_error (x : Q) :
  (Number.pow2 (-1022) <= x)%Q →
  (x * (1 - (1 # 9007199254740992)) <= Number.rnd x
   ∧ Number.rnd x <= x * (1 + (1 # 9007199254740992)))%Q.
Proof.
  intros Hn.
  assert (Hx : (0 < x)%Q) by (eapply Qlt_le_trans; [apply pow2_pos | exact Hn]).
  pose proof (ilog2_ge x _ Hn) as He.
  destruct (ilog2_spec x Hx) as [Hlo _].
  destruct (rnd_error x) as [H1 H2]; [lra|].
  rewrite (ulp_exp_pos x Hx), Z.max_l in H1, H2 by lia.
  replace (Number.ilog2 x - 52) with (Number.ilog2 x + -52) in H1, H2 by lia.
  rewrite pow2_add in H1, H2.
  assert (Hc : (Number.pow2 (-52) * (1 # 2) == 1 # 9007199254740992)%Q) by reflexivity.
  set (E := Number.pow2 (Number.ilog2 x)) in *.
  assert (HE : (E * Number.pow2 (-52) * (1 # 2) == E * (1 # 9007199254740992))%Q).
  { rewrite <- Qmult_assoc, Hc. reflexivity. }
  rewrite HE in H1, H2.
  assert (HEx : (E * (1 # 9007199254740992) <= x * (1 # 9007199254740992))%Q).
  { apply Qmult_le_compat_r; [exact Hlo | discriminate]. }
  split; lra.
Qed.

Lemma Qfloor_unit (x : Q) : (0 <= x)%Q → (x < 1)%Q → Qfloor x = 0.
Proof.
  intros H0 H1. pose proof (Qfloor_le x) as Hlo.
  pose proof (Qlt_floor x) as Hhi. rewrite inject_Z_plus in Hhi.
  assert (Ha : (inject_Z (Qfloor x) < inject_Z 1)%Q)
    by (change (inject_Z 1) with 1%Q; lra).
  assert (Hb : (inject_Z (-1) < inject_Z (Qfloor x))%Q)
    by (change (inject_Z (-1)) with (-1 # 1)%Q; change (inject_Z 1) with 1%Q in Hhi; lra).
  rewrite <- Zlt_Qlt in Ha, Hb. lia.
Qed.

(** A value within [2^-11] of zero gives an ideal point of exactly zero. *)
Lemma ideal_of_small (z : Q) :
  (- (1 # 2048) <= z <= 1 # 2048)%Q →
  Qmax 0
    (Number.rnd
       (inject_Z (Qfloor (Number.rnd (Number.rnd z * 10) + (1 # 2))) / 10))
  = 0%Q.
Proof.
  intros [Hlo Hhi].
  assert (Hp : (Number.rnd (1 # 2048) == 1 # 2048)%Q) by (by vm_compute).
  assert (Hm : (Number.rnd (- (1 # 2048)) == - (1 # 2048))%Q) by (by vm_compute).
  assert (Hp' : (Number.rnd (1 # 128) == 1 # 128)%Q) by (by vm_compute).
  assert (Hm' : (Number.rnd (- (1 # 128)) == - (1 # 128))%Q) by (by vm_compute).
  pose proof (rnd_mono _ _ Hlo) as H1. pose proof (rnd_mono _ _ Hhi) as H2.
  assert (H3 : (- (1 # 128) <= Number.rnd z * 10)%Q) by lra.
  assert (H4 : (Number.rnd z * 10 <= 1 # 128)%Q) by lra.
  apply rnd_mono in H3, H4.
  rewrite (Qfloor_unit (Number.rnd (Number.rnd z * 10) + (1 # 2))) by lra.
  reflexivity.
Qed.

Lemma ideal_last_day (tasks : list Task.t) (total : Q) (t d : Z) :
  (total == inject_Z t)%Q → 0 ≤ t ≤ 2 ^ 40 → 1 ≤ d ≤ 2 ^ 53 →
  ideal (burndownEntry tasks total (pointsPerDay total d) d) = 0%Q.
Proof.
  intros HT Ht Hd. rewrite ideal_burndownEntry. apply ideal_of_small.
  assert (HD1 : (1 <= inject_Z d)%Q)
    by (change 1%Q with (inject_Z 1); rewrite <- Zle_Qle; lia).
  assert (HD2 : (inject_Z d <= inject_Z (2 ^ 53))%Q)
    by (rewrite <- Zle_Qle; lia).
  assert (HT2 : (inject_Z t <= inject_Z (2 ^ 40))%Q)
    by (rewrite <- Zle_Qle; lia).
  change (inject_Z (2 ^ 53)) with (9007199254740992 # 1)%Q in HD2.
  change (inject_Z (2 ^ 40)) with (1099511627776 # 1)%Q in HT2.
  destruct (Z.eq_dec t 0) as [->|Hne].
  - (* nothing in the sprint: the line is flat at zero *)
    assert (Hpd : pointsPerDay total d = 0%Q).
    { unfold pointsPerDay, Number.ltb.
      destruct (Qcompare_spec 0 total) as [_|H|_]; try reflexivity.
      rewrite HT in H. discriminate. }
    rewrite Hpd, (rnd_zero (0 * inject_Z d)) by ring.
    change (inject_Z 0) with 0%Q in HT. lra.
  - assert (HT1 : (1 <= inject_Z t)%Q)
      by (change 1%Q with (inject_Z 1); rewrite <- Zle_Qle; lia).
    assert (Hpd : pointsPerDay total d = Number.rnd (total / inject_Z d)).
    { unfold pointsPerDay, Number.ltb, Number.div.
      destruct (Qcompare_spec 0 total) as [H|_|H]; [lra| |lra].
      destruct (Z.ltb_spec 0 d); [reflexivity | lia]. }
    rewrite Hpd.
    set (a := (total / inject_Z d)%Q).
    assert (Had : (a * inject_Z d == total)%Q) by (unfold a; field; lra).
    assert (Hmin : (Number.pow2 (-1022) <= 1 # 9007199254740992)%Q)
      by (vm_compute; discriminate).
    assert (Ha : (1 # 9007199254740992 <= a)%Q).
    { unfold a. apply Qle_shift_div_l; lra. }
    destruct (rnd_relative_error a) as [Ha1 Ha2]; [lra|].
    set (ppd := Number.rnd a) in *.
    apply (Qmult_le_compat_r _ _ (inject_Z d)) in Ha1; [|lra].
    apply (Qmult_le_compat_r _ _ (inject_Z d)) in Ha2; [|lra].
    assert (Hb1 : (total * (1 - (1 # 9007199254740992)) <= ppd * inject_Z d)%Q).
    { eapply Qle_trans; [|exact Ha1]. rewrite <- Had. apply Qle_lteq. right. ring. }
    assert (Hb2 : (ppd * inject_Z d <= total * (1 + (1 # 9007199254740992)))%Q).
    { eapply Qle_trans; [exact Ha2|]. rewrite <- Had. apply Qle_lteq. right. ring. }
    destruct (rnd_relative_error (ppd * inject_Z d)) as [Hm1 Hm2]; [lra|].
    set (m := Number.rnd (ppd * inject_Z d)) in *.
    split; lra.
Qed.

(** X9: the ideal line ends at zero.  For points that are not negative, a
    total of at most [2^40] and a sprint of at least one day, the last entry
    of the series is that of day [durationDays] and its [ideal] is exactly 0,
    whatever the binary64 rounding did on the way. *)
Theorem X9_ideal_ends_at_zero (tasks : list Task.t) (s : Sprint.t) :
  Forall (λ t, 0 ≤ pointsZ t) tasks →
  totalPointsZ tasks ≤ 2 ^ 40 →
  1 ≤ sprintDurationDays s ≤ 2 ^ 53 →
  ∃ p : BurndownPoint,
    last (burndownData tasks s) = Some p
    ∧ day p = sprintDurationDays s
    ∧ ideal p = 0%Q.
Proof.
  intros Hnn Hb Hd.
  destruct (totalPoints_exact tasks Hnn) as [HT HT0]; [lia|].
  exists (burndownEntry tasks (totalPoints tasks)
            (pointsPerDay (totalPoints tasks) (sprintDurationDays s))
            (sprintDurationDays s)).
  split_and!.
  - rewrite last_lookup, burndownData_eq. simpl length.
    rewrite length_fmap, length_seqZ. simpl.
    replace (Z.to_nat (sprintDurationDays s))
      with (S (Z.to_nat (sprintDurationDays s - 1))) by lia.
    simpl. rewrite list_lookup_fmap.
    rewrite (proj2 (lookup_seqZ 1 _ _ (sprintDurationDays s))); [done|lia].
  - reflexivity.
  - apply (ideal_last_day tasks _ (totalPointsZ tasks)); [exact HT | lia | lia].
Qed.

Lemma X9_ideal_ends_at_zero_witness :
  ∃ p : BurndownPoint,
    last (burndownData initialTasks initialSprint) = Some p
    ∧ day p = sprintDurationDays initialSprint
    ∧ ideal p = 0%Q.
Proof.
  apply (X9_ideal_ends_at_zero initialTasks initialSprint).
  - repeat constructor; vm_compute; discriminate.
  - vm_compute. discriminate.
  - by vm_compute.
Defined.

(** ** The task dialog *)

Lemma not_string_trim_title (form : TaskDetailForm) :
  not_string (trim (detail_title form)) = allWhiteSpace (detail_title form).
Proof. apply not_string_trim. Qed.

Lemma pointsZ_pointsOrBlank (task task' : Task.t) :
  Task.points task' = pointsOrBlank (Task.points task) →
  pointsZ task' = pointsZ task.
Proof.
  unfold pointsZ, pointsOrBlank. intros ->.
  destruct (Task.points task) as [p|]; [|done].
  destruct (Z.eqb_spec p 0) as [->|]; done.
Qed.

Lemma inColumn_ids_replace (c : ColumnId) (pre post : list Task.t)
    (t t' : Task.t) :
  Task.id t' = Task.id t → Task.column t' = Task.column t →
  Task.id <$> inColumn c (pre ++ t' :: post)
  = Task.id <$> inColumn c (pre ++ t :: post).
Proof.
  intros Hid Hcol. rewrite !inColumn_app, !inColumn_cons, Hcol.
  destruct (decide (Task.column t = c)); [|done].
  by rewrite !fmap_app, !fmap_cons, Hid.
Qed.

(** X11: opening the dialog on a task of the board and saving at once changes
    nothing one can see on the board: the task stays where it is with its id,
    column, title and description, the ids of every column and the burndown
    series are the same.  Only a [points] of 0 is stored back as no points and
    missing attachments as an empty list; a task without these comes back
    identical.  The title must not be blank, or the save is refused. *)
Theorem X11_open_then_save (pre post : list Task.t) (t : Task.t)
    (st : AppState) :
  tasks st = pre ++ t :: post →
  Forall (λ u, Task.id u ≠ Task.id t) pre →
  allWhiteSpace (Task.title t) = false →
  let saved :=
    TaskDetailModal_handleSubmit handleUpdateTask t (TaskDetailModal_open t) st
  in
  saved.1 = None
  ∧ tasks saved.2 =
      pre ++ Task.mk (Task.id t) (Task.column t) (Task.title t)
                     (Task.description t) (pointsOrBlank (Task.points t))
                     (Some (default [] (Task.attachments t))) :: post
  ∧ burndownData (tasks saved.2) (sprint saved.2)
    = burndownData (tasks st) (sprint st)
  ∧ (∀ c, Task.id <$> columnTasks (tasks saved.2) c
          = Task.id <$> columnTasks (tasks st) c)
  ∧ (Task.points t ≠ Some 0 → Task.attachments t ≠ None →
     tasks saved.2 = tasks st).
Proof.
  intros Hts Hpre Htitle saved.
  assert (Hsaved : saved =
    (None, handleUpdateTask (editedTask t (TaskDetailModal_open t)) st)).
  { unfold saved, TaskDetailModal_handleSubmit.
    rewrite not_string_trim_title. simpl. by rewrite Htitle. }
  assert (Htasks : tasks saved.2 =
    pre ++ editedTask t (TaskDetailModal_open t) :: post).
  { rewrite Hsaved. cbn [snd].
    exact (handleUpdateTask_split pre post t
             (editedTask t (TaskDetailModal_open t)) st Hts eq_refl Hpre). }
  split_and!.
  - by rewrite Hsaved.
  - exact Htasks.
  - rewrite Htasks, Hsaved. simpl sprint. rewrite Hts.
    apply burndownData_alike, Forall2_app; [apply Forall2_burndownAlike_refl|].
    constructor; [|apply Forall2_burndownAlike_refl].
    unfold burndownAlike. split_and!; [done | done |].
    by apply pointsZ_pointsOrBlank.
  - intros c. rewrite !columnTasks_inColumn, Htasks, Hts.
    by apply inColumn_ids_replace.
  - intros Hp Ha. rewrite Htasks, Hts. do 2 f_equal.
    unfold editedTask, TaskDetailModal_open. destruct t as [i c ti d p a].
    simpl in *. f_equal.
    + destruct p as [p|]; [|done]. simpl.
      destruct (Z.eqb_spec p 0) as [->|]; done.
    + by destruct a.
Qed.

Lemma X11_open_then_save_witness :
  ∃ (pre post : list Task.t) (t : Task.t),
    tasks initialState = pre ++ t :: post
    ∧ Task.id t = "task-4"
    ∧ tasks (TaskDetailModal_handleSubmit handleUpdateTask t
               (TaskDetailModal_open t) initialState).2
      = tasks initialState.
Proof.
  exists (take 3 initialTasks), (drop 4 initialTasks),
    (Task.mk "task-4" in_progress "Develop Landing Page"
       "Build the main marketing landing page with React and Tailwind."
       (Some 3) (Some [])).
  split_and!; [reflexivity | reflexivity |].
  refine (proj2 (proj2 (proj2 (proj2
    (X11_open_then_save (take 3 initialTasks) (drop 4 initialTasks) _
       initialState eq_refl _ eq_refl)))) _ _); [|discriminate|discriminate].
  repeat constructor; discriminate.
Defined.

(** X12: whatever the dialog holds, saving it cannot add, remove, reorder or
    rename tasks: the list of ids is the one before, so distinct ids stay
    distinct.  The save is refused, with an alert and the state untouched,
    exactly when the title is blank; an empty description is accepted. *)
Theorem X12_save_keeps_ids (task : Task.t) (form : TaskDetailForm)
    (st : AppState) :
  let saved := TaskDetailModal_handleSubmit handleUpdateTask task form st in
  Task.id <$> tasks saved.2 = Task.id <$> tasks st
  ∧ (distinctIds st → distinctIds saved.2)
  ∧ saved.1 =
      (if allWhiteSpace (detail_title form) then Some "Title is required."
       else None)
  ∧ (allWhiteSpace (detail_title form) = true → saved.2 = st)
  ∧ (allWhiteSpace (detail_title form) = false →
     saved.2 = handleUpdateTask (editedTask task form) st
     ∧ Task.id (editedTask task form) = Task.id task).
Proof.
  intros saved. unfold saved, TaskDetailModal_handleSubmit, distinctIds.
  rewrite not_string_trim_title.
  destruct (allWhiteSpace (detail_title form)); cbn [fst snd].
  - split_and!; [done | done | done | done | discriminate].
  - rewrite handleUpdateTask_ids.
    split_and!; [done | done | done | discriminate | done].
Qed.

(** *** Attachments in the dialog *)

Lemma filterIndexed_after (A : Type) (index : nat) (l : list A) :
  ∀ start : nat, (index < start)%nat →
    filterIndexed (λ _ i, negb (i =? index)%nat) start l = l.
Proof.
  induction l as [|x l IH]; intros start Hlt; [done|]. simpl.
  destruct (Nat.eqb_spec start index); [lia|]. simpl. f_equal. apply IH. lia.
Qed.

Lemma filterIndexed_delete (A : Type) (index : nat) (l : list A) :
  ∀ start : nat, (start ≤ index)%nat →
    filterIndexed (λ _ i, negb (i =? index)%nat) start l
    = delete (index - start)%nat l.
Proof.
  induction l as [|x l IH]; intros start Hle; [done|]. simpl.
  destruct (Nat.eqb_spec start index) as [->|Hne]; simpl.
  - rewrite Nat.sub_diag. simpl. apply filterIndexed_after. lia.
  - replace (index - start)%nat with (S (index - S start)) by lia. simpl.
    f_equal. apply IH. lia.
Qed.

(** X13: [handleRemoveAttachment] takes out the attachment at the index and
    no other, keeping the order (it is the list with position [index]
    deleted); an index past the end leaves the dialog as it is; and removing the
    position of a file that was just loaded undoes the loading. *)
Theorem X13_remove_attachment (index : nat) (form : TaskDetailForm)
    (name type data : string) :
  detail_attachments (handleRemoveAttachment index form)
  = delete index (detail_attachments form)
  ∧ handleRemoveAttachment index form
    = setAttachments (delete index) form
  ∧ ((length (detail_attachments form) ≤ index)%nat →
     handleRemoveAttachment index form = form)
  ∧ (not_string data = false →
     handleRemoveAttachment (length (detail_attachments form))
       (fileLoaded name type data form) = form).
Proof.
  assert (Hdel : ∀ f, detail_attachments (handleRemoveAttachment index f)
                      = delete index (detail_attachments f)).
  { intros f. unfold handleRemoveAttachment, setAttachments. simpl.
    rewrite filterIndexed_delete by lia. by rewrite Nat.sub_0_r. }
  split_and!.
  - apply Hdel.
  - unfold handleRemoveAttachment, setAttachments.
    rewrite filterIndexed_delete by lia. by rewrite Nat.sub_0_r.
  - intros Hlen. unfold handleRemoveAttachment, setAttachments.
    rewrite filterIndexed_delete by lia. rewrite Nat.sub_0_r.
    rewrite delete_take_drop, take_ge, drop_ge, app_nil_r by lia.
    by destruct form.
  - intros Hdata. unfold fileLoaded. rewrite Hdata.
    unfold handleRemoveAttachment, setAttachments. simpl.
    rewrite filterIndexed_delete by lia. rewrite Nat.sub_0_r.
    rewrite delete_middle, app_nil_r. by destruct form.
Qed.

Lemma X13_remove_attachment_witness :
  handleRemoveAttachment 0
    (fileLoaded "notes.txt" "text/plain" "data:text/plain;base64,SGVsbG8="
       (TaskDetailModal_open
          (Task.mk "task-9" todo "Notes" "Read the notes" None None)))
  = TaskDetailModal_open
      (Task.mk "task-9" todo "Notes" "Read the notes" None None).
Proof.
  exact (proj2 (proj2 (proj2 (X13_remove_attachment 0
           (TaskDetailModal_open
              (Task.mk "task-9" todo "Notes" "Read the notes" None None))
           "notes.txt" "text/plain" "data:text/plain;base64,SGVsbG8=")))
         eq_refl).
Defined.

Lemma awaitTry_calls (A B : Type) (answer : GeminiService.Error + string)
    (p : GeminiService.Async A)
    (k : GeminiService.Error + A → GeminiService.Async B) :
  (∀ r, GeminiService.gatewayCalls answer (k r) = 0%nat) →
  GeminiService.gatewayCalls answer (awaitTry p k)
  = GeminiService.gatewayCalls answer p.
Proof.
  intros Hk. induction p as [a|e|label e next IH|client request next IH];
    simpl; [apply Hk | apply Hk | exact IH | f_equal; apply IH].
Qed.

Lemma awaitTry_settle (A B : Type) (answer : GeminiService.Error + string)
    (p : GeminiService.Async A)
    (k : GeminiService.Error + A → GeminiService.Async B) :
  settle answer (awaitTry p k) = settle answer (k (settle answer p)).
Proof.
  induction p as [a|e|label e next IH|client request next IH];
    simpl; [done | done | exact IH | apply IH].
Qed.

(** The service calls the gateway at most once. *)
Lemma analyzeTaskAttachments_calls (API_KEY : option string)
    (ai : option GeminiService.GoogleGenAI) (taskTitle : string)
    (attachments : list Attachment.t)
    (answer : GeminiService.Error + string) :
  (GeminiService.gatewayCalls answer
     (GeminiService.analyzeTaskAttachments API_KEY ai taskTitle attachments)
   ≤ 1)%nat.
Proof.
  unfold GeminiService.analyzeTaskAttachments.
  destruct (length attachments =? 0)%nat; [simpl; lia|].
  destruct (GeminiService.fileParts attachments); [simpl; lia|].
  destruct (GeminiService.getAiClient API_KEY ai) as [e|[client ai']];
    [simpl; lia|].
  simpl. destruct answer; simpl; lia.
Qed.

(** X14: [handleAnalyzeAttachments] never lets an error escape and never
    calls the gateway more than once.  Without attachments it only alerts: no
    call, the dialog unchanged (so the service's own answer for an empty list
    is never asked for from here).  Otherwise, at the end the dialog is no
    longer analyzing, its title, points, column and attachments are as before,
    and its description is either untouched, with an alert, or extended by
    the separator and the summary, without one. *)
Theorem X14_analyze_in_dialog (API_KEY : option string)
    (ai : option GeminiService.GoogleGenAI) (form : TaskDetailForm)
    (answer : GeminiService.Error + string) :
  (GeminiService.gatewayCalls answer
     (handleAnalyzeAttachments API_KEY ai form) ≤ 1)%nat
  ∧ (detail_attachments form = [] →
     handleAnalyzeAttachments API_KEY ai form
     = GeminiService.Resolve
         (Some "Please attach at least one file to analyze.", form))
  ∧ (detail_attachments form ≠ [] →
     ∃ (alert : option string) (description : string),
       settle answer (handleAnalyzeAttachments API_KEY ai form)
       = inr (alert,
              mkTaskDetailForm (detail_title form) description
                (detail_points form) (detail_column form)
                (detail_attachments form) false)
       ∧ (alert = None ∧
          (∃ summary : string,
             description
             = detail_description form +:+ analysisMarker +:+ summary)
          ∨ alert
            = Some "Error analyzing attachments. Check console for details."
            ∧ description = detail_description form)).
Proof.
  split_and!.
  - unfold handleAnalyzeAttachments.
    destruct (length (detail_attachments form) =? 0)%nat; [simpl; lia|].
    rewrite awaitTry_calls; [apply analyzeTaskAttachments_calls|].
    by intros [e|summary].
  - intros Hnil. unfold handleAnalyzeAttachments. by rewrite Hnil.
  - intros Hne. unfold handleAnalyzeAttachments.
    assert (Hlen : (length (detail_attachments form) =? 0)%nat = false)
      by (by destruct (detail_attachments form)).
    rewrite Hlen, awaitTry_settle.
    destruct (settle answer (GeminiService.analyzeTaskAttachments _ _ _ _))
      as [e|summary]; simpl.
    + eexists _, _. split; [reflexivity|]. right. done.
    + eexists _, _. split; [reflexivity|]. left. split; [done|].
      by exists summary.
Qed.

Lemma X14_analyze_in_dialog_witness :
  handleAnalyzeAttachments (Some "key") None
    (TaskDetailModal_open
       (Task.mk "task-9" todo "Notes" "Read the notes" None None))
  = GeminiService.Resolve
      (Some "Please attach at least one file to analyze.",
       TaskDetailModal_open
         (Task.mk "task-9" todo "Notes" "Read the notes" None None)).
Proof.
  exact (proj1 (proj2 (X14_analyze_in_dialog (Some "key") None
           (TaskDetailModal_open
              (Task.mk "task-9" todo "Notes" "Read the notes" None None))
           (inr "Summary"))) eq_refl).
Defined.

(** ** Generated stories *)

Lemma allDigits_pretty_N_char (x : N) :
  allDigits (String (pretty_N_char x) EmptyString) = true.
Proof. unfold pretty_N_char. by repeat case_match. Qed.

Lemma allDigits_pretty_N_go (x : N) :
  ∀ s : string, allDigits s = true → allDigits (pretty_N_go x s) = true.
Proof.
  induction (N.lt_wf_0 x) as [x _ IH]; intros s Hs.
  destruct (decide (x = 0)%N) as [->|Hx]; [by rewrite pretty_N_go_0|].
  rewrite pretty_N_go_step by lia. apply IH; [apply N.div_lt; lia|].
  pose proof (allDigits_pretty_N_char (x `mod` 10)) as Hc.
  simpl in *. rewrite andb_true_r in Hc. by rewrite Hc, Hs.
Qed.

Lemma allDigits_pretty_nat (n : nat) : allDigits (pretty n) = true.
Proof.
  unfold pretty, pretty_nat, pretty, pretty_N.
  case_decide; [done|]. by apply allDigits_pretty_N_go.
Qed.

Lemma allDigits_no_dash (a b d : string) :
  allDigits d = true → d ≠ a +:+ "-" +:+ b.
Proof.
  revert d. induction a as [|c a IH]; intros d Hd Heq; subst d; simpl in Hd.
  - discriminate.
  - apply andb_prop in Hd as [_ Hd]. by apply (IH _ Hd).
Qed.

Lemma dash_suffix_inj (a b d1 d2 : string) :
  allDigits d1 = true → allDigits d2 = true →
  a +:+ "-" +:+ d1 = b +:+ "-" +:+ d2 → d1 = d2.
Proof.
  revert b. induction a as [|c a IH]; intros b H1 H2 Heq.
  - destruct b as [|c' b]; simpl in Heq; [by injection Heq|].
    injection Heq as _ Heq. by destruct (allDigits_no_dash b d2 d1 H1).
  - destruct b as [|c' b]; simpl in Heq.
    + injection Heq as _ Heq. symmetry in Heq.
      by destruct (allDigits_no_dash a d1 d2 H2).
    + injection Heq as _ Heq. by apply (IH b).
Qed.

(** Two story ids with different indices differ, whatever the clock says. *)
Lemma storyTaskId_index_inj (n1 n2 : Z) (i1 i2 : nat) :
  storyTaskId n1 i1 = storyTaskId n2 i2 → i1 = i2.
Proof.
  unfold storyTaskId. intros H. apply (inj (String.app "task-")) in H.
  apply dash_suffix_inj in H; [|apply allDigits_pretty_nat..].
  by apply (inj pretty) in H.
Qed.

Lemma storyTasks_lookup (clock : nat → Z) (newStories : list Story)
    (i : nat) :
  storyTasks clock newStories !! i =
    (λ story, Task.mk (storyTaskId (clock i) i) backlog (story_title story)
                (story_description story) (Some (story_points story))
                (Some []))
    <$> newStories !! i.
Proof. unfold storyTasks. apply list_lookup_imap. Qed.

Lemma storyTasks_ids_NoDup (clock : nat → Z) (newStories : list Story) :
  NoDup (Task.id <$> storyTasks clock newStories).
Proof.
  assert (Hid : ∀ i, (Task.id <$> storyTasks clock newStories) !! i
                     = (λ _, storyTaskId (clock i) i) <$> newStories !! i).
  { intros i. rewrite list_lookup_fmap, storyTasks_lookup.
    by destruct (newStories !! i). }
  apply NoDup_alt. intros i j x. rewrite !Hid.
  destruct (newStories !! i); [|done]. destruct (newStories !! j); [|done].
  cbn [fmap option_fmap option_map]. intros Hi Hj. rewrite <- Hi in Hj.
  apply (inj Some) in Hj. symmetry. exact (storyTaskId_index_inj _ _ _ _ Hj).
Qed.

Lemma storyTasks_backlog (clock : nat → Z) (newStories : list Story) :
  Forall (λ t, Task.column t = backlog) (storyTasks clock newStories).
Proof.
  apply Forall_lookup. intros i t. rewrite storyTasks_lookup.
  destruct (newStories !! i); [|done]. by intros [= <-].
Qed.

(** X15: when the gateway delivers stories, [handleGenerateStories] appends
    one task per story, in order, with the story's title, description and
    points, in the backlog and without attachments.  The new ids are pairwise
    distinct even if the clock does not advance, since each carries its index.
    The burndown and the columns other than the backlog do not change, and at
    the end nothing is loading. *)
Theorem X15_generated_stories (clock : nat → Z) (featureIdea : string)
    (newStories : list Story) (st : AppState * AiState) :
  not_string featureIdea = false →
  let result := handleGenerateStories clock featureIdea (inr newStories) st in
  result.1 = []
  ∧ tasks result.2.1 = tasks st.1 ++ storyTasks clock newStories
  ∧ (λ t, (Task.column t, Task.title t, Task.description t, Task.points t,
           Task.attachments t)) <$> storyTasks clock newStories
    = (λ story, (backlog, story_title story, story_description story,
                 Some (story_points story), Some [])) <$> newStories
  ∧ NoDup (Task.id <$> storyTasks clock newStories)
  ∧ burndownData (tasks result.2.1) (sprint result.2.1)
    = burndownData (tasks st.1) (sprint st.1)
  ∧ (∀ c, c ≠ backlog →
          columnTasks (tasks result.2.1) c = columnTasks (tasks st.1) c)
  ∧ isLoading result.2.2 = false
  ∧ aiFeature result.2.2 = None.
Proof.
  intros Hidea result. unfold result, handleGenerateStories.
  rewrite Hidea. cbn [fst snd]. split_and!; try done.
  - apply list_eq. intros i.
    rewrite !list_lookup_fmap, storyTasks_lookup.
    by destruct (newStories !! i).
  - apply storyTasks_ids_NoDup.
  - apply append_backlog_burndown, storyTasks_backlog.
  - intros c Hc. simpl.
    rewrite (append_backlog_columns _ _ c (storyTasks_backlog _ _)).
    by rewrite decide_False.
Qed.

Lemma X15_generated_stories_witness :
  NoDup (Task.id <$> storyTasks (λ _, sameClock)
                       [mkStory "Login" "As a user" 3; mkStory "Logout" "As a user" 1])
  ∧ Task.id <$> tasks
        (handleGenerateStories (λ _, sameClock) "Accounts"
           (inr [mkStory "Login" "As a user" 3; mkStory "Logout" "As a user" 1])
           (initialState, mkAiState false None EmptyString false true)).2.1
    = (Task.id <$> initialTasks)
      ++ ["task-1721433600000-0"; "task-1721433600000-1"].
Proof.
  destruct (X15_generated_stories (λ _, sameClock) "Accounts"
              [mkStory "Login" "As a user" 3; mkStory "Logout" "As a user" 1]
              (initialState, mkAiState false None EmptyString false true)
              eq_refl) as (_ & Htasks & _ & Hnd & _).
  split; [exact Hnd|]. rewrite Htasks. by vm_compute.
Defined.

(** X16: [handleGenerateStories] never removes or changes a task that is
    there: the old collection is a prefix of the new one, and the sprint is
    untouched.  With an empty idea it does nothing at all; otherwise it ends,
    on success and on failure alike, with the loading flag down and no
    feature pending; on failure the tasks are those before and one alert is
    shown.  The dialog refuses a blank idea before anything else happens. *)
Theorem X16_generate_stories_safe (clock : nat → Z) (featureIdea : string)
    (outcome : GeminiService.Error + list Story) (st : AppState * AiState) :
  let result := handleGenerateStories clock featureIdea outcome st in
  tasks st.1 `prefix_of` tasks result.2.1
  ∧ sprint result.2.1 = sprint st.1
  ∧ (if not_string featureIdea then result = ([], st)
     else isLoading result.2.2 = false
          ∧ aiFeature result.2.2 = None
          ∧ showStoriesModal result.2.2 = false
          ∧ aiGeneratedContent result.2.2 = aiGeneratedContent st.2)
  ∧ (∀ error, outcome = inl error → not_string featureIdea = false →
       tasks result.2.1 = tasks st.1
       ∧ result.1
         = ["Error generating user stories. Check console for details."])
  ∧ (allWhiteSpace featureIdea = true →
     GenerateStoriesModal_handleSubmit clock featureIdea outcome st
     = (["Please enter a feature idea."], st)).
Proof.
  intros result. unfold result, handleGenerateStories.
  split_and!.
  - destruct (not_string featureIdea); [done|].
    destruct outcome; cbn [fst snd]; [done|]. by apply prefix_app_r.
  - destruct (not_string featureIdea); [done|]. by destruct outcome.
  - destruct (not_string featureIdea); [done|]. by destruct outcome.
  - intros error -> ->. done.
  - intros Hblank. unfold GenerateStoriesModal_handleSubmit.
    by rewrite not_string_trim, Hblank.
Qed.

(** ** The gateway client *)

Lemma split_no_sep (sep : ascii) (s : string) :
  hasChar sep s = false → GeminiService.split sep s = [s].
Proof.
  induction s as [|c s IH]; [done|]. simpl.
  intros [Hc Hs]%orb_false_elim. by rewrite Hc, (IH Hs).
Qed.

Lemma split_app_sep (sep : ascii) (a b : string) :
  hasChar sep a = false →
  GeminiService.split sep (a +:+ String sep b) = a :: GeminiService.split sep b.
Proof.
  induction a as [|c a IH]; simpl.
  - intros _. by rewrite Ascii.eqb_refl.
  - intros [Hc Ha]%orb_false_elim. by rewrite Hc, (IH Ha).
Qed.

(** X17: [filePart] takes the payload of a data URI: for data made of a
    prefix without comma, a comma and a payload without comma it returns the
    payload with the MIME type of the file, unless the payload is empty; what
    follows a second comma is dropped; data without any comma is refused with
    the error that names the file. *)
Theorem X17_filePart_data_uri (name type prefix payload rest : string) :
  hasChar "," prefix = false → hasChar "," payload = false →
  GeminiService.filePart
    (Attachment.mk name type (prefix +:+ "," +:+ payload))
  = (if not_string payload
     then inl (GeminiService.mkError ("Invalid base64 data for file " +:+ name))
     else inr (GeminiService.InlineDataPart payload type))
  ∧ GeminiService.filePart
      (Attachment.mk name type (prefix +:+ "," +:+ payload +:+ "," +:+ rest))
    = GeminiService.filePart
        (Attachment.mk name type (prefix +:+ "," +:+ payload))
  ∧ GeminiService.filePart (Attachment.mk name type prefix)
    = inl (GeminiService.mkError ("Invalid base64 data for file " +:+ name)).
Proof.
  intros Hprefix Hpayload.
  assert (H1 : GeminiService.split "," (prefix +:+ "," +:+ payload)
               = [prefix; payload]).
  { change ("," +:+ payload) with (String "," payload).
    by rewrite split_app_sep, split_no_sep. }
  assert (H2 : ∃ pieces,
            GeminiService.split "," (prefix +:+ "," +:+ payload +:+ "," +:+ rest)
            = prefix :: payload :: pieces).
  { change ("," +:+ payload +:+ "," +:+ rest)
      with (String "," (payload +:+ String "," rest)).
    rewrite split_app_sep by done. rewrite split_app_sep by done. eauto. }
  destruct H2 as [pieces H2].
  unfold GeminiService.filePart. simpl Attachment.data. simpl Attachment.name.
  simpl Attachment.type. rewrite H1, H2, split_no_sep by done. done.
Qed.

Lemma X17_filePart_data_uri_witness :
  GeminiService.filePart notesAttachment
  = inr (GeminiService.InlineDataPart "SGVsbG8=" "text/plain")
  ∧ GeminiService.filePart brokenAttachment
    = inl (GeminiService.mkError "Invalid base64 data for file broken.bin").
Proof.
  split.
  - exact (proj1 (X17_filePart_data_uri "notes.txt" "text/plain"
                    "data:text/plain;base64" "SGVsbG8=" EmptyString
                    eq_refl eq_refl)).
  - exact (proj2 (proj2 (X17_filePart_data_uri "broken.bin"
                    "application/octet-stream" "SGVsbG8=" "SGVsbG8=" EmptyString
                    eq_refl eq_refl))).
Defined.

(** X18: [fileParts] is all or nothing, left to right: it gives one part per
    attachment, in order, exactly when [filePart] accepts every attachment;
    otherwise it fails with the error of the first attachment that
    [filePart] refuses. *)
Theorem X18_fileParts_all_or_first_error (attachments : list Attachment.t) :
  (∀ parts, GeminiService.fileParts attachments = inr parts ↔
            Forall2 (λ file part, GeminiService.filePart file = inr part)
                    attachments parts)
  ∧ (∀ e, GeminiService.fileParts attachments = inl e ↔
          ∃ good bad rest,
            attachments = good ++ bad :: rest
            ∧ Forall (λ file, ∃ part, GeminiService.filePart file = inr part)
                     good
            ∧ GeminiService.filePart bad = inl e).
Proof.
  induction attachments as [|file rest [IH1 IH2]]; split.
  - intros parts. simpl. split.
    + intros [= <-]. constructor.
    + intros H. by inversion H.
  - intros e. simpl. split; [done|].
    intros (good & bad & rest & Heq & _). by destruct good.
  - intros parts. simpl.
    destruct (GeminiService.filePart file) as [e|part] eqn:Hfile.
    + split; [done|]. intros H. inversion H; congruence.
    + destruct (GeminiService.fileParts rest) as [e|parts'] eqn:Hrest.
      * split; [done|]. intros H. inversion H as [|? ? ? ? _ Hf]; subst.
        apply IH1 in Hf. done.
      * split.
        -- intros [= <-]. constructor; [done|]. by apply IH1.
        -- intros H. inversion H as [|? p ? ps Hp Hf]; subst.
           apply IH1 in Hf. congruence.
  - intros e. simpl.
    destruct (GeminiService.filePart file) as [e'|part] eqn:Hfile.
    + split.
      * intros [= <-]. exists [], file, rest. by split_and!.
      * intros (good & bad & rest' & Heq & Hgood & Hbad).
        destruct good as [|g good]; simplify_eq/=; [congruence|].
        inversion Hgood as [|? ? [p Hp] _]; congruence.
    + destruct (GeminiService.fileParts rest) as [e'|parts'] eqn:Hrest.
      * split.
        -- intros [= <-].
           destruct (proj1 (IH2 e') eq_refl) as (good & bad & rest' & -> & Hg & Hb).
           exists (file :: good), bad, rest'. split_and!; [done| |done].
           constructor; eauto.
        -- intros (good & bad & rest' & Heq & Hgood & Hbad).
           destruct good as [|g good]; simplify_eq/=; [congruence|].
           inversion Hgood; subst. f_equal.
           assert (He : inl e' = inl e :> GeminiService.Error + list GeminiService.Part).
           { apply IH2. eauto 10. }
           congruence.
      * split; [done|].
        intros (good & bad & rest' & Heq & Hgood & Hbad).
        destruct good as [|g good]; simplify_eq/=; [congruence|].
        inversion Hgood; subst.
        assert (He : inr parts' = inl e :> GeminiService.Error + list GeminiService.Part).
        { apply IH2. eauto 10. }
        done.
Qed.





(** X20: the client is built once.  When [getAiClient] returns a client,
    that client is cached, and every later call returns it whatever the
    environment key has become; a client built by this call (no cache before)
    carries the environment key, which is not empty.  [getAiClient] throws
    exactly when nothing is cached and the key is missing or empty. *)
Theorem X20_client_cached (API_KEY : option string)
    (ai : option GeminiService.GoogleGenAI) :
  (∀ client ai',
     GeminiService.getAiClient API_KEY ai = inr (client, ai') →
     ai' = Some client
     ∧ (∀ API_KEY', GeminiService.getAiClient API_KEY' ai' = inr (client, ai'))
     ∧ (ai = None →
        API_KEY = Some (GeminiService.apiKey client)
        ∧ GeminiService.apiKey client ≠ EmptyString))
  ∧ (∀ e, GeminiService.getAiClient API_KEY ai = inl e ↔
          ai = None
          ∧ (API_KEY = None ∨ API_KEY = Some EmptyString)
          ∧ e = GeminiService.mkError
                  "API_KEY environment variable not set. Please configure it to use AI features.").
Proof.
  unfold GeminiService.getAiClient. split.
  - intros client ai' H. destruct ai as [cached|].
    + simplify_eq/=. done.
    + destruct API_KEY as [[|c key]|]; simplify_eq/=. done.
  - intros e. destruct ai as [cached|].
    { split; [done|]. by intros [? _]. }
    destruct API_KEY as [[|c key]|]; simpl.
    + split; [intros [= <-]; auto|]. by intros (_ & _ & ->).
    + split; [done|]. intros (_ & [|] & _); done.
    + split; [intros [= <-]; auto|]. by intros (_ & _ & ->).
Qed.

Lemma X20_client_cached_witness :
  GeminiService.getAiClient None (Some (GeminiService.mkGoogleGenAI "first"))
  = inr (GeminiService.mkGoogleGenAI "first",
         Some (GeminiService.mkGoogleGenAI "first")).
Proof.
  apply (proj1 (X20_client_cached (Some "first") None)
           (GeminiService.mkGoogleGenAI "first")
           (Some (GeminiService.mkGoogleGenAI "first")) eq_refl).
Defined.

(** ** The stories read from the answer *)

Lemma rawStory_inr (story : JSON.t) :
  story ≠ JSON.Null →
  ∃ raw, rawStory story = inr raw
         ∧ JSON.truthy (raw_title raw) = true
         ∧ JSON.truthy (raw_description raw) = true.
Proof.
  assert (Hor : ∀ x fallback,
            not_string fallback = false →
            JSON.truthy (orElse x fallback) = true).
  { intros [v|] fallback Hf; simpl; [|by rewrite Hf].
    destruct (JSON.truthy v) eqn:Hv; [done|]. simpl. by rewrite Hf. }
  intros Hnull. unfold rawStory.
  destruct story as [|b|n|s|items|members]; try done;
    (eexists; split; [reflexivity|]);
    split; first [reflexivity | by apply Hor].
Qed.

Lemma rawStory_Null (raw : RawStory) : rawStory JSON.Null ≠ inr raw.
Proof. done. Qed.

Lemma rawStory_values (item : JSON.t) (raw : RawStory) :
  rawStory item = inr raw →
  match item with
  | JSON.Null => False
  | JSON.Obj members =>
      raw = mkRawStory
              (orElse (JSON.member "title" members) "Untitled Story")
              (orElse (JSON.member "description" members)
                      "No description provided.")
              (match JSON.member "points" members with
               | Some (JSON.Num n) => n
               | _ => 0%Q
               end)
  | _ => raw = mkRawStory (JSON.Str "Untitled Story")
                          (JSON.Str "No description provided.") 0%Q
  end.
Proof. destruct item; cbn; by intros [= <-]. Qed.

Lemma rawStories_Forall2 (items : list JSON.t) (stories : list RawStory) :
  rawStories items = inr stories ↔
  Forall2 (λ item raw, rawStory item = inr raw) items stories.
Proof.
  revert stories. induction items as [|item items IH]; intros stories; simpl.
  - split; [intros [= <-]; constructor|]. intros H. by inversion H.
  - destruct (rawStory item) as [e|raw] eqn:Hraw.
    { split; [done|]. intros H. inversion H; congruence. }
    destruct (rawStories items) as [e|others] eqn:Hothers.
    + split; [done|]. intros H. inversion H as [|? ? ? ? _ Hf]; subst.
      by apply IH in Hf.
    + split.
      * intros [= <-]. constructor; [done|]. by apply IH.
      * intros H. inversion H as [|? r ? rs Hr Hf]; subst.
        apply IH in Hf. congruence.
Qed.

(** X21: which answers [generateUserStories] accepts, and what it makes of
    them.  A parsed value that is not an array is refused with the error of
    the validation.  An array is turned into stories exactly when none of its
    items is [null] (reading a member of [null] throws).  The stories are the
    items' stories, one for one and in order: an object gives its title and
    description where they are truthy and the default texts where not, and
    its points where they are a number and 0 where not (of two members with
    the same key the later counts); an item that is no object gives the
    default texts and 0.  So every title and description is truthy. *)
Theorem X21_stories_of_answer (parsed : JSON.t) :
  (∀ stories,
     storiesOfParsed parsed = inr stories →
     ∃ items, parsed = JSON.Arr items
              ∧ length stories = length items
              ∧ Forall (λ item, item ≠ JSON.Null) items
              ∧ Forall (λ raw, JSON.truthy (raw_title raw) = true
                               ∧ JSON.truthy (raw_description raw) = true)
                       stories
              ∧ Forall2
                  (λ item raw,
                     rawStory item = inr raw
                     ∧ match item with
                       | JSON.Null => False
                       | JSON.Obj members =>
                           raw = mkRawStory
                                   (orElse (JSON.member "title" members)
                                           "Untitled Story")
                                   (orElse (JSON.member "description" members)
                                           "No description provided.")
                                   (match JSON.member "points" members with
                                    | Some (JSON.Num n) => n
                                    | _ => 0%Q
                                    end)
                       | _ => raw = mkRawStory
                                      (JSON.Str "Untitled Story")
                                      (JSON.Str "No description provided.")
                                      0%Q
                       end)
                  items stories)
  ∧ (∀ items,
       parsed = JSON.Arr items →
       Forall (λ item, item ≠ JSON.Null) items →
       ∃ stories, storiesOfParsed parsed = inr stories)
  ∧ ((∀ items, parsed ≠ JSON.Arr items) →
     storiesOfParsed parsed
     = inl (GeminiService.mkError "AI did not return an array of stories."))
  ∧ (∀ items stories,
       parsed = JSON.Arr items →
       Forall2 (λ item raw, rawStory item = inr raw) items stories →
       storiesOfParsed parsed = inr stories).
Proof.
  split_and!.
  - intros stories H. destruct parsed as [| | | |items|]; try done.
    exists items. split; [done|]. simpl in H.
    apply rawStories_Forall2 in H.
    induction H as [|item raw items stories Hraw _ (Hlen & Hitems & Hraws & Hall)].
    { by split_and!. }
    assert (Hitem : item ≠ JSON.Null).
    { intros ->. by apply (rawStory_Null raw). }
    split_and!.
    + simpl. by rewrite Hlen.
    + by constructor.
    + constructor; [|done].
      destruct (rawStory_inr item Hitem) as (raw' & Hraw' & Ht & Hd).
      rewrite Hraw in Hraw'. by injection Hraw' as <-.
    + constructor; [|done]. split; [done|]. by apply rawStory_values.
  - intros items -> Hitems. simpl.
    induction Hitems as [|item items Hitem _ [others IH]]; [by eexists|].
    destruct (rawStory_inr item Hitem) as (raw & Hraw & _).
    simpl. rewrite Hraw, IH. by eexists.
  - intros Hnot. destruct parsed as [| | | |items|]; try done.
    by destruct (Hnot items).
  - intros items stories -> H. simpl. by apply rawStories_Forall2.
Qed.

(** An instance of X21: a number among the items becomes an untitled story
    without points. *)
Lemma X21_stories_of_answer_witness :
  ∃ stories,
    storiesOfParsed
      (JSON.Arr [JSON.Num 7;
                 JSON.Obj [("title", JSON.Str "Sign in");
                           ("points", JSON.Str "3")]])
    = inr stories.
Proof.
  apply (proj1 (proj2 (X21_stories_of_answer _)) _ eq_refl).
  repeat constructor; discriminate.
Defined.

(** ** The lists of the retrospective prompt *)

Lemma join_cons_String (sep : string) (c : ascii) (x : string)
    (l : list string) :
  join sep (String c x :: l) = String c (join sep (x :: l)).
Proof. by destruct l. Qed.

Lemma split_nonempty (sep : ascii) (s : string) :
  ∃ piece pieces, GeminiService.split sep s = piece :: pieces.
Proof.
  induction s as [|c s (piece & pieces & IH)]; simpl; [by eauto|].
  destruct (Ascii.eqb c sep); [by eauto|]. rewrite IH. eauto.
Qed.

Lemma bullets_of_lines (s piece : string) (pieces : list string) :
  GeminiService.split "010" s = piece :: pieces →
  join GeminiService.newline (piece :: ((λ item, "- " +:+ item) <$> pieces))
  = dashAfterNewlines s.
Proof.
  revert piece pieces. induction s as [|c s IH]; intros piece pieces;
    cbn [GeminiService.split dashAfterNewlines].
  - by intros [= <- <-].
  - destruct (split_nonempty "010" s) as (piece' & pieces' & Hs).
    rewrite Hs. destruct (Ascii.eqb c "010") eqn:Hc.
    + apply Ascii.eqb_eq in Hc as ->.
      intros [= <- <-]. cbn [fmap list_fmap].
      change (join GeminiService.newline
                (EmptyString :: ("- " +:+ piece')
                             :: ((λ item, "- " +:+ item) <$> pieces')))
        with (String "010"
                (join GeminiService.newline
                   (("- " +:+ piece')
                    :: ((λ item, "- " +:+ item) <$> pieces')))).
      change ("- " +:+ piece') with (String "-" (String " " piece')).
      rewrite !join_cons_String. by rewrite (IH _ _ Hs).
    + intros [= <- <-]. rewrite join_cons_String. by rewrite (IH _ _ Hs).
Qed.

(** X22: the retrospective dialog splits each text area at its line feeds
    and the prompt lists the pieces as bullets joined by line feeds.  The
    bullets are the text itself with ["- "] in front and after every line
    feed: an empty text area still gives one empty bullet, and there is one
    bullet more than there are line feeds.  Joining the pieces without the
    bullets gives the text back. *)
Theorem X22_retrospective_bullets (s : string) :
  bulletList (GeminiService.split "010" s) = "- " +:+ dashAfterNewlines s
  ∧ length (GeminiService.split "010" s) = S (countNewlines s)
  ∧ join GeminiService.newline (GeminiService.split "010" s) = s.
Proof.
  split_and!.
  - destruct (split_nonempty "010" s) as (piece & pieces & Hs).
    rewrite Hs. unfold bulletList. cbn [fmap list_fmap].
    change ("- " +:+ piece) with (String "-" (String " " piece)).
    rewrite !join_cons_String. by rewrite (bullets_of_lines _ _ _ Hs).
  - induction s as [|c s IH]; [done|]. simpl.
    destruct (Ascii.eqb c "010"); simpl; [by rewrite IH|].
    destruct (split_nonempty "010" s) as (piece & pieces & Hs).
    rewrite Hs in IH |- *. done.
  - induction s as [|c s IH]; [done|]. simpl.
    destruct (split_nonempty "010" s) as (piece & pieces & Hs).
    rewrite Hs in IH |- *.
    destruct (Ascii.eqb c "010") eqn:Hc.
    + apply Ascii.eqb_eq in Hc as ->.
      change (join GeminiService.newline (EmptyString :: piece :: pieces))
        with (String "010" (join GeminiService.newline (piece :: pieces))).
      by rewrite IH.
    + rewrite join_cons_String. by rewrite IH.
Qed.

(** ** The sprint dialog *)

(** X23: what the sprint dialog does on submit when the [Date] constructor
    reads a date string and the same string followed by [T00:00:00Z] alike,
    as it does for the values of a date input.  When the dialog saves, the
    stored start is before the stored end, so the sprint lasts at least one
    day; the tasks and the sprint's id are kept and the dialog is closed.
    When it alerts, the state is unchanged.  It hands an invalid date to
    [onSave] only if one of the two strings is not a date. *)
Theorem X23_sprint_dialog_submit (newDate : string → option Date)
    (s : Sprint.t) (form : SprintEditForm) (st : AppState) :
  newDate (sprintForm_startDate form +:+ "T00:00:00Z")
  = newDate (sprintForm_startDate form) →
  newDate (sprintForm_endDate form +:+ "T00:00:00Z")
  = newDate (sprintForm_endDate form) →
  match SprintEditModal_handleSubmit newDate handleUpdateSprint s form st with
  | Some (None, st') =>
      Sprint.startDate (sprint st') < Sprint.endDate (sprint st')
      ∧ 1 ≤ sprintDurationDays (sprint st')
      ∧ tasks st' = tasks st
      ∧ Sprint.id (sprint st') = Sprint.id s
      ∧ Sprint.name (sprint st') = sprintForm_name form
      ∧ Sprint.goal (sprint st') = sprintForm_goal form
      ∧ showSprintModal st' = false
  | Some (Some _, st') => st' = st
  | None =>
      newDate (sprintForm_startDate form) = None
      ∨ newDate (sprintForm_endDate form) = None
  end.
Proof.
  intros Hstart Hend. unfold SprintEditModal_handleSubmit.
  destruct (_ || _); [done|]. rewrite Hstart, Hend.
  destruct (newDate (sprintForm_startDate form)) as [a|] eqn:Ha;
    destruct (newDate (sprintForm_endDate form)) as [b|] eqn:Hb;
    simpl; auto.
  destruct (b <=? a) eqn:Hle; [done|].
  apply Z.leb_gt in Hle. simpl.
  split_and!; try done.
  apply sprintDurationDays_differ. simpl. lia.
Qed.

Lemma X23_sprint_dialog_submit_witness :
  Sprint.startDate
    (sprint (handleUpdateSprint
               (Sprint.mk "sprint-1" "Sprint 1" 1721433600000 1722643200000
                          "Ship it")
               (mkAppState [] initialSprint false None false)))
  < 1722643200000.
Proof.
  exact (proj1 (X23_sprint_dialog_submit sampleNewDate initialSprint
                  sampleSprintForm (mkAppState [] initialSprint false None false)
                  eq_refl eq_refl)).
Defined.
